(** * Order Item Breakdown: refund calculation, validation and application

    A shallow embedding of [src/react_app_frontend/src/components/OrderItemBreakdown.jsx]:
    the currency formatter, the refund confirmation dialog
    ([ConfirmRefundModal]) and the page-level [applyRefund] callback.

    Numbers.  The source computes with JavaScript numbers.  A finite number
    is represented by the rational it denotes and arithmetic is exact: the
    rounding of IEEE-754 double arithmetic is not modelled, and neither are
    the two infinities.  [NaN] is kept, because the source guards against it
    ([x || 0], [isNaN(v)]) and an [<input type="number">] can deliver it.

    The source rounds every sum and difference to binary64.  For that
    reason the properties about the amounts after a refund follow the
    operations of the code in the order the code performs them, or compare
    amounts, and so hold of the rounded operations as well.  Where a
    statement of the specification relies on an identity that only exact
    arithmetic has, module [F64] evaluates the operations of the code on
    binary64 numbers. *)

From Stdlib Require Import QArith Qminmax Qround Qabs Lqa ZArith Lia.
From Stdlib Require Import String Ascii DecimalString DecimalPos DecimalN.
From Stdlib Require PrimFloat.
From stdpp Require Import base list strings.

Open Scope Q_scope.
Open Scope string_scope.
Open Scope list_scope.

(** ** JavaScript numbers *)

Inductive jsnum : Type :=
  | Num (q : Q)
  | NaN.

Declare Scope jsnum_scope.
Delimit Scope jsnum_scope with jsnum.
Bind Scope jsnum_scope with jsnum.

(** Equality of numbers as values ([===] on finite numbers; [NaN] is related
    to itself so that the relation is an equivalence). *)
Definition num_eq (x y : jsnum) : Prop :=
  match x, y with
  | Num a, Num b => a == b
  | NaN, NaN => True
  | _, _ => False
  end.

Infix "=n=" := num_eq (at level 70, no associativity).

Definition num_eqb (x y : jsnum) : bool :=
  match x, y with
  | Num a, Num b => Qeq_bool a b
  | NaN, NaN => true
  | _, _ => false
  end.

Definition finite (x : jsnum) : bool :=
  match x with Num _ => true | NaN => false end.

(** [isNaN(x)] *)
Definition isNaN (x : jsnum) : bool :=
  match x with Num _ => false | NaN => true end.

(** [x + y] and [x - y] *)
Definition nadd (x y : jsnum) : jsnum :=
  match x, y with
  | Num a, Num b => Num (a + b)
  | _, _ => NaN
  end.

Definition nsub (x y : jsnum) : jsnum :=
  match x, y with
  | Num a, Num b => Num (a - b)
  | _, _ => NaN
  end.

Definition nmul (x y : jsnum) : jsnum :=
  match x, y with
  | Num a, Num b => Num (a * b)
  | _, _ => NaN
  end.

(** [Math.max(x, y)] and [Math.min(x, y)]: [NaN] as soon as an argument is. *)
Definition nmax (x y : jsnum) : jsnum :=
  match x, y with
  | Num a, Num b => Num (Qmax a b)
  | _, _ => NaN
  end.

Definition nmin (x y : jsnum) : jsnum :=
  match x, y with
  | Num a, Num b => Num (Qmin a b)
  | _, _ => NaN
  end.

(** Strict and non-strict comparison of two rationals as booleans. *)
Definition Qltb (a b : Q) : bool := negb (Qle_bool b a).

(** [x <= y], [x < y], [x > y]: every comparison with [NaN] is false. *)
Definition nle (x y : jsnum) : bool :=
  match x, y with
  | Num a, Num b => Qle_bool a b
  | _, _ => false
  end.

Definition nlt (x y : jsnum) : bool :=
  match x, y with
  | Num a, Num b => Qltb a b
  | _, _ => false
  end.

Definition ngt (x y : jsnum) : bool := nlt y x.

(** Truthiness of a number: everything but [0] and [NaN]. *)
Definition truthy (x : jsnum) : bool :=
  match x with
  | Num a => negb (Qeq_bool a 0)
  | NaN => false
  end.

(** [x || y] on numbers. *)
Definition jsor (x y : jsnum) : jsnum := if truthy x then x else y.

Definition zero : jsnum := Num 0.

(** [x || 0] *)
Definition or0 (x : jsnum) : jsnum := jsor x zero.

Infix "+" := nadd : jsnum_scope.
Infix "-" := nsub : jsnum_scope.
Infix "*" := nmul : jsnum_scope.

(** ** Objects used as maps

    [feeEdits] is a plain object keyed by fee type.  Its own enumerable
    string keys are visited in insertion order by [Object.values] and
    [Object.entries]; assigning to an existing key keeps its position.
    This is the order of keys that are not canonical numeric strings; keys
    such as ["2"] and ["10"] are visited first, in ascending numeric order,
    and an assignment to ["__proto__"] stores no entry.  Lookups and sums do
    not depend on the order; a property that does is stated for plain keys
    ([plainKey] below). *)

Definition obj : Type := list (string * jsnum).

Fixpoint obj_set (k : string) (v : jsnum) (o : obj) : obj :=
  match o with
  | [] => [(k, v)]
  | (k', v') :: o' =>
      if String.eqb k' k then (k, v) :: o' else (k', v') :: obj_set k v o'
  end.

Fixpoint obj_get (k : string) (o : obj) : option jsnum :=
  match o with
  | [] => None
  | (k', v') :: o' => if String.eqb k' k then Some v' else obj_get k o'
  end.

(** [Object.values(o)] *)
Definition obj_values (o : obj) : list jsnum := map snd o.

(** ** Data model *)

Record Fee : Type := mkFee {
  type : string;
  original : jsnum;
  refundableDefault : jsnum;
  maxRefund : jsnum
}.

Record OrderItem : Type := mkItem {
  id : string;
  title : string;
  metadata : string;
  originalAmount : jsnum;
  amount : jsnum;
  refundedAmount : jsnum;
  fees : list Fee
}.

(** One entry of [payload.items[i].feeRefunds]. *)
Record FeeRefund : Type := mkFeeRefund {
  fr_type : string;
  fr_amount : jsnum
}.

(** One entry of [payload.items]; the source reads [p.id], [p.amount] and
    [p.feeRefunds || []], so the last field may be missing. *)
Record PayloadItem : Type := mkPayloadItem {
  p_id : string;
  p_amount : jsnum;
  p_feeRefunds : option (list FeeRefund)
}.

Record Payload : Type := mkPayload {
  items : list PayloadItem;
  reason : string;
  notes : string
}.

(** ** Currency formatting ([currency], lines 63-71)

    The two library calls are modelled after their specifications,
    [Number.prototype.toFixed] of ECMAScript and the [en-US]/[USD] currency
    format of ECMA-402, applied to the exact value of the number.  Both
    round the magnitude to the nearest hundredth, ties away from zero, print
    a minus sign for a negative argument and print ["NaN"] for [NaN]. *)

(** The magnitude of [q] in hundredths, rounded half up. *)
Definition cents (q : Q) : Z := Qfloor (100 * Qabs q + (1 # 2)).

Definition digit (d : Z) : ascii := ascii_of_nat (48 + Z.to_nat d).

(** Decimal digits of a non-negative integer, ["0"] for zero. *)
Definition digits (z : Z) : string :=
  DecimalString.NilZero.string_of_uint (N.to_uint (Z.to_N z)).

(** The two digits after the decimal point. *)
Definition decimals (n : Z) : string :=
  String (digit ((n / 10) mod 10)) (String (digit (n mod 10)) EmptyString).

Definition sign (q : Q) : string := if Qltb q 0 then "-" else "".

(** Grouping of a reversed digit list by thousands; [k] digits are still to
    be emitted before the next separator. *)
Fixpoint group_rev (k : nat) (l : list ascii) : list ascii :=
  match l with
  | [] => []
  | c :: l' =>
      match k with
      | O => ","%char :: c :: group_rev 2 l'
      | S k' => c :: group_rev k' l'
      end
  end.

Definition group3 (s : string) : string :=
  string_of_list_ascii
    (rev (group_rev 3 (rev (list_ascii_of_string s)))).

(** [ToString(x)] for a number [x] of at least [10^21], which ECMAScript
    prints in exponent notation with the fewest digits that still denote
    [x].  When [x] is one digit [d] times [10^k] these are the digit [d]
    alone, and the string is [d], ["e+"] and [k].  [expForm] strips the
    trailing zeros of the integer [z], counting them in [k]; other numbers
    need more digits, whose choice depends on the binary representation, and
    get no string here. *)
Fixpoint expForm (fuel : nat) (z k : Z) : option string :=
  match fuel with
  | O => None
  | S fuel' =>
      if (z <? 10)%Z then Some (digits z +:+ "e+" +:+ digits k)
      else if (z mod 10 =? 0)%Z then expForm fuel' (z / 10) (k + 1)
      else None
  end.

Definition toStringLarge (q : Q) : option string :=
  let r := Qred q in
  if (Z.pos (Qden r) =? 1)%Z
  then expForm (S (Z.to_nat (Z.log2 (Qnum r)))) (Qnum r) 0
  else None.

(** [x.toFixed(2)]: the sign, then for a magnitude below [10^21] the
    magnitude in hundredths with a decimal point before the last two digits,
    and for a magnitude of [10^21] or more [ToString] of the magnitude. *)
Definition toFixed2 (x : jsnum) : option string :=
  match x with
  | NaN => Some "NaN"
  | Num q =>
      if Qle_bool (10 ^ 21) (Qabs q)
      then (fun m => sign q +:+ m) <$> toStringLarge (Qabs q)
      else Some (sign q +:+ digits (cents q / 100) +:+ "." +:+ decimals (cents q))
  end.

(** [new Intl.NumberFormat("en-US", {style: "currency", currency: "USD"}).format(x)],
    as ECMA-402 defines it on the exact value of [x].  Engines that format
    through ICU round the shortest decimal that denotes the number instead
    of its exact value: for the number written [1.005], whose exact value
    lies just below [1.005], they print ["$1.01"] where this definition and
    [toFixed] give [1.00].  The properties below use [intlFormat] only for
    the value zero and as a function of the number, never for the digits it
    prints for another value. *)
Definition intlFormat (x : jsnum) : string :=
  match x with
  | NaN => "$NaN"
  | Num q => sign q +:+ "$" +:+ group3 (digits (cents q / 100)) +:+ "." +:+ decimals (cents q)
  end.

(** The argument of [currency]: a number, or [null]/[undefined]. *)
Inductive jsval : Type :=
  | Nullish
  | Number (x : jsnum).

(** [Number(n || 0)] *)
Definition numberOr0 (n : jsval) : jsnum :=
  match n with
  | Nullish => zero
  | Number x => or0 x
  end.

(** [currency(n)].  [intl] tells whether the [Intl] call returns; when it
    throws, the [catch] branch formats with [toFixed]. *)
Definition currency (intl : bool) (n : jsval) : option string :=
  if intl then Some (intlFormat (numberOr0 n))
  else (fun s => "$" +:+ s) <$> toFixed2 (numberOr0 n).

(** ** The refund confirmation dialog ([ConfirmRefundModal], lines 142-333) *)

(** The component's four state variables. *)
Record ModalState : Type := mkModal {
  refundAmount : jsnum;
  feeEdits : obj;
  submitting : bool;
  error : string
}.

(** The values passed to [useState]. *)
Definition initialModal : ModalState :=
  {| refundAmount := zero; feeEdits := []; submitting := false; error := "" |}.

Definition msgNonPositive : string := "Enter amount greater than $0.00".
Definition msgExceeds : string := "Exceeds refundable amount".
Definition msgFailed : string := "Failed to issue refund. Please try again.".
Definition msgPartial : string := "Partial refund will withhold some fees.".

(** The default written into [defaults[f.type]] (line 159):
    [Math.min(f.refundableDefault || 0, f.maxRefund || f.refundableDefault || 0)]. *)
Definition feeDefault (f : Fee) : jsnum :=
  nmin (or0 (refundableDefault f))
       (or0 (jsor (maxRefund f) (refundableDefault f))).

(** The object built by the [forEach] of lines 157-160. *)
Definition feeDefaults (fs : list Fee) : obj :=
  fold_left (fun defaults f => obj_set (type f) (feeDefault f) defaults) fs [].

(** The initialising effect (lines 154-163). *)
Definition initEffect (open : bool) (item : option OrderItem) (st : ModalState)
  : ModalState :=
  match item with
  | Some it =>
      if open then
        {| refundAmount := (amount it - refundedAmount it)%jsnum;
           feeEdits := feeDefaults (fees it);
           submitting := submitting st;
           error := "" |}
      else st
  | None => st
  end.

(** [maxRefundable] (lines 165-170). *)
Definition maxRefundable (item : option OrderItem) : jsnum :=
  match item with
  | None => zero
  | Some it =>
      let base := nmax (amount it - refundedAmount it)%jsnum zero in
      let feeCap :=
        fold_left (fun acc f => (acc + or0 (maxRefund f))%jsnum) (fees it) zero in
      (base + feeCap)%jsnum
  end.

(** [totalRequestedRefund] (lines 172-175). *)
Definition totalRequestedRefund (refundAmount : jsnum) (feeEdits : obj) : jsnum :=
  let fees :=
    fold_left (fun a b => (a + or0 b)%jsnum) (obj_values feeEdits) zero in
  (or0 refundAmount + fees)%jsnum.

Definition total (st : ModalState) : jsnum :=
  totalRequestedRefund (refundAmount st) (feeEdits st).

(** The message chosen by the validating effect (lines 179-187). *)
Definition validate (total maxR : jsnum) : string :=
  if nle total zero then msgNonPositive
  else if ngt total maxR then msgExceeds
  else "".

(** The validating effect (lines 177-188): the new value of [error]. *)
Definition validationEffect (open : bool) (total maxR : jsnum) (st : ModalState)
  : ModalState :=
  if open then
    {| refundAmount := refundAmount st; feeEdits := feeEdits st;
       submitting := submitting st; error := validate total maxR |}
  else st.

(** The per-fee cap of lines 192 and 283:
    [Math.min(f.maxRefund || 0, f.original || 0)]. *)
Definition perFeeCap (f : Fee) : jsnum :=
  nmin (or0 (maxRefund f)) (or0 (original f)).

(** [handleFeeChange(type, value, f)] (lines 190-198); [v] is
    [Number(value)]. *)
Definition handleFeeChange (type : string) (v : jsnum) (f : Fee) (st : ModalState)
  : ModalState :=
  let cap := perFeeCap f in
  let entry := if isNaN v || nlt v zero then zero else nmin v cap in
  {| refundAmount := refundAmount st;
     feeEdits := obj_set type entry (feeEdits st);
     submitting := submitting st;
     error := error st |}.

(** The [onChange] of the amount input (line 260); [v] is
    [Number(e.target.value)]. *)
Definition handleAmountChange (v : jsnum) (st : ModalState) : ModalState :=
  {| refundAmount := nmax zero v;
     feeEdits := feeEdits st;
     submitting := submitting st;
     error := error st |}.

(** The payload built by [handleConfirm] (lines 203-213). *)
Definition buildPayload (it : OrderItem) (st : ModalState) : Payload :=
  {| items :=
       [ {| p_id := id it;
            p_amount := or0 (refundAmount st);
            p_feeRefunds :=
              Some (map (fun e => {| fr_type := fst e; fr_amount := or0 (snd e) |})
                        (feeEdits st)) |} ];
     reason := "User-initiated refund";
     notes := "" |}.

(** [disabled] of the confirm button (line 323). *)
Definition confirmDisabled (st : ModalState) : bool :=
  negb (String.eqb (error st) "") || submitting st || nle (total st) zero.

(** [partialNote] (lines 225-228). *)
Definition partialNote (total maxR : jsnum) : string :=
  if nlt total maxR && ngt total zero then msgPartial else "".

(** The helper line under the amount input (line 265):
    [error || `Customer receives: ${currency(totalRequestedRefund)}`]. *)
Definition helperText (intl : bool) (error : string) (total : jsnum)
  : option string :=
  if String.eqb error "" then
    (fun s => "Customer receives: " +:+ s) <$> currency intl (Number total)
  else Some error.

(** *** One dialog instance as a transition system

    The dialog is mounted by the page with [open = true] and a fixed [item]
    and is unmounted when the page closes it.  An event handler runs against
    the state committed by the previous event, effects included: React
    re-renders and runs the effects of a user event before it dispatches the
    next one.  [issueRefundMock] is the external service; a call stays in
    [inflight] until the service answers. *)

Record Dialog : Type := mkDialog {
  modal : ModalState;
  mounted : bool;
  inflight : list Payload;
  issued : list Payload;
  confirmed : list Payload
}.

Inductive event : Type :=
  | ChangeAmount (v : jsnum)
  | ChangeFee (f : Fee) (v : jsnum)
  | Confirm
  | Resolve (ok : bool)
  | Close.

(** Commit after a state change: the validating effect runs again only when
    one of its dependencies changed; [open] and [maxRefundable] are fixed for
    the instance, so only the total can. *)
Definition rerender (it : OrderItem) (oldTotal : jsnum) (st : ModalState)
  : ModalState :=
  if num_eqb (total st) oldTotal then st
  else validationEffect true (total st) (maxRefundable (Some it)) st.

(** Mounting: first render with the [useState] values, both effects in
    source order, then the commit of their updates. *)
Definition mountModal (it : OrderItem) : ModalState :=
  let t0 := total initialModal in
  let st1 := initEffect true (Some it) initialModal in
  let st2 := validationEffect true t0 (maxRefundable (Some it)) st1 in
  rerender it t0 st2.

Definition mount (it : OrderItem) : Dialog :=
  {| modal := mountModal it; mounted := true;
     inflight := []; issued := []; confirmed := [] |}.

Definition withModal (d : Dialog) (st : ModalState) : Dialog :=
  {| modal := st; mounted := mounted d; inflight := inflight d;
     issued := issued d; confirmed := confirmed d |}.

(** [handleConfirm] up to its [await] (lines 200-214). *)
Definition handleConfirm (it : OrderItem) (d : Dialog) : Dialog :=
  let st := modal d in
  if negb (String.eqb (error st) "") || submitting st then d
  else
    let payload := buildPayload it st in
    {| modal := {| refundAmount := refundAmount st; feeEdits := feeEdits st;
                   submitting := true; error := error st |};
       mounted := mounted d;
       inflight := inflight d ++ [payload];
       issued := issued d ++ [payload];
       confirmed := confirmed d |}.

(** [handleConfirm] after its [await] (lines 215-220), for the oldest call
    in flight.  State updates of an unmounted component are dropped;
    [onConfirm] is the page's [applyRefund], which closes the dialog. *)
Definition resolveConfirm (ok : bool) (d : Dialog) : Dialog :=
  match inflight d with
  | [] => d
  | payload :: rest =>
      let st := modal d in
      let st' :=
        if mounted d then
          {| refundAmount := refundAmount st; feeEdits := feeEdits st;
             submitting := false;
             error := if ok then error st else msgFailed |}
        else st in
      {| modal := st';
         mounted := if ok then false else mounted d;
         inflight := rest;
         issued := issued d;
         confirmed := if ok then confirmed d ++ [payload] else confirmed d |}
  end.

(** One event.  [Confirm] invokes [handleConfirm] whether or not the button
    is rendered [disabled], so a programmatic invocation is covered as well. *)
Definition step (it : OrderItem) (d : Dialog) (e : event) : Dialog :=
  match e with
  | ChangeAmount v =>
      if mounted d then
        withModal d (rerender it (total (modal d)) (handleAmountChange v (modal d)))
      else d
  | ChangeFee f v =>
      if mounted d then
        withModal d
          (rerender it (total (modal d)) (handleFeeChange (type f) v f (modal d)))
      else d
  | Confirm => if mounted d then handleConfirm it d else d
  | Resolve ok => resolveConfirm ok d
  | Close =>
      {| modal := modal d; mounted := false; inflight := inflight d;
         issued := issued d; confirmed := confirmed d |}
  end.

Definition run (it : OrderItem) (es : list event) : Dialog :=
  fold_left (step it) es (mount it).

(** ** Applying a refund to the page's items ([applyRefund], lines 426-448)

    The toast and its timer are presentation and are left out. *)

Record Page : Type := mkPage {
  pageItems : list OrderItem;
  modalItem : option OrderItem;
  modalOpen : bool
}.

(** [upd.findIndex((it) => it.id === p.id)]; [None] stands for [-1]. *)
Definition findIndex (key : string) (upd : list OrderItem) : option nat :=
  fst <$> list_find (fun it => id it = key) upd.

(** [feeSum] and [totalRefund] (lines 433-434). *)
Definition feeSum (p : PayloadItem) : jsnum :=
  fold_left (fun a b => (a + or0 (fr_amount b))%jsnum)
            (default [] (p_feeRefunds p)) zero.

Definition totalRefund (p : PayloadItem) : jsnum :=
  (or0 (p_amount p) + feeSum p)%jsnum.

(** The object literal of lines 435-439. *)
Definition refundItem (it : OrderItem) (totalRefund : jsnum) : OrderItem :=
  {| id := id it; title := title it; metadata := metadata it;
     originalAmount := originalAmount it;
     amount := nmax (or0 (amount it) - totalRefund)%jsnum zero;
     refundedAmount := (or0 (refundedAmount it) + totalRefund)%jsnum;
     fees := fees it |}.

(** The body of the [forEach] (lines 431-440).  An index returned by
    [findIndex] is within the array, so the assignment [upd[idx] = ...]
    replaces an existing element and the inner [None] branch is never
    taken. *)
Definition applyOne (upd : list OrderItem) (p : PayloadItem) : list OrderItem :=
  match findIndex (p_id p) upd with
  | Some idx =>
      match upd !! idx with
      | Some it => <[idx := refundItem it (totalRefund p)]> upd
      | None => upd
      end
  | None => upd
  end.

Definition closeRefundModal (pg : Page) : Page :=
  {| pageItems := pageItems pg; modalItem := None; modalOpen := false |}.

Definition applyRefund (pg : Page) (payload : Payload) : Page :=
  let upd := fold_left applyOne (items payload) (pageItems pg) in
  closeRefundModal
    {| pageItems := upd; modalItem := modalItem pg; modalOpen := modalOpen pg |}.

(** ** The data model's constraints and the specification's sums

    Every amount is a non-negative number; [refundableDefault] and
    [maxRefund] lie in [[0, original]]. *)

Definition nonneg (x : jsnum) : bool := nle zero x.

Definition within (x hi : jsnum) : bool := nle zero x && nle x hi.

Definition wfFee (f : Fee) : bool :=
  nonneg (original f)
  && within (refundableDefault f) (original f)
  && within (maxRefund f) (original f).

Definition wfItem (it : OrderItem) : bool :=
  nonneg (originalAmount it) && nonneg (amount it)
  && nonneg (refundedAmount it) && forallb wfFee (fees it).

(** [sum(xs)] as the specification writes it. *)
Definition sum (xs : list jsnum) : jsnum := fold_right nadd zero xs.

(** [originalAmount == amount + refundedAmount] *)
Definition invariant (it : OrderItem) : Prop :=
  originalAmount it =n= (amount it + refundedAmount it)%jsnum.

(** The first item served by [fetchOrderItemsMock] (lines 13-25). *)
Definition itm_1 : OrderItem :=
  {| id := "itm_1";
     title := "Drug License - Address Update";
     metadata := "Fri, Jul 26, 2024 - 12:51 AM";
     originalAmount := Num 75.0;
     amount := Num 75.0;
     refundedAmount := Num 0.0;
     fees :=
       [ mkFee "Processing fee" (Num 2.5) (Num 0.0) (Num 0.0);
         mkFee "Convenience fee" (Num 1.0) (Num 0.0) (Num 0.0);
         mkFee "Tax" (Num 5.75) (Num 5.75) (Num 5.75) ] |}.

Definition pageOf (its : list OrderItem) : Page :=
  {| pageItems := its; modalItem := None; modalOpen := false |}.

(** A payload carrying a single request, as [handleConfirm] builds it. *)
Definition single (p : PayloadItem) : Payload :=
  {| items := [p]; reason := "User-initiated refund"; notes := "" |}.

(** Every fee cap of the item is a number. *)
Definition feesFinite (it : OrderItem) : bool :=
  forallb (fun f => finite (maxRefund f)) (fees it).

(** The item of the specification's round-trip example; the fields the
    example leaves open are arbitrary. *)
Definition exampleItem (i t m : string) (o : jsnum)
    (t1 t2 t3 : string) (d1 d2 d3 : jsnum) : OrderItem :=
  {| id := i; title := t; metadata := m; originalAmount := o;
     amount := Num 75.00; refundedAmount := Num 0;
     fees := [ mkFee t1 (Num 2.5) d1 (Num 0);
               mkFee t2 (Num 1.0) d2 (Num 0);
               mkFee t3 (Num 5.75) d3 (Num 5.75) ] |}.

(** The request carries numbers only. *)
Definition payloadFinite (p : PayloadItem) : bool :=
  finite (p_amount p)
  && forallb (fun b => finite (fr_amount b)) (default [] (p_feeRefunds p)).

(** An item of the data model with a fee that cannot be refunded
    ([maxRefund = 0]) but suggests a default refund of [1.00]. *)
Definition feeNonRefundable : Fee :=
  mkFee "Processing fee" (Num 2.5) (Num 1.0) (Num 0.0).

Definition itm_default : OrderItem :=
  {| id := "itm_d"; title := "Drug License - Renewal";
     metadata := "Fri, Jul 26, 2024 - 01:10 PM";
     originalAmount := Num 75.0; amount := Num 75.0;
     refundedAmount := Num 0.0;
     fees := [feeNonRefundable] |}.

(** What holds of every state a dialog instance can reach: at most one call
    is in flight and, while mounted, none unless [submitting]; an empty
    [error] means the current total passes validation; every payload handed
    to the service was built from a state whose total passes validation. *)
Definition dialogInv (it : OrderItem) (d : Dialog) : Prop :=
  (length (inflight d) <= 1)%nat
  /\ (mounted d = true -> submitting (modal d) = false -> inflight d = [])
  /\ (mounted d = true -> error (modal d) = "" ->
      validate (total (modal d)) (maxRefundable (Some it)) = "")
  /\ (forall pl, In pl (issued d) ->
      exists st, pl = buildPayload it st
                 /\ validate (total st) (maxRefundable (Some it)) = "").

(** A decimal digit character. *)
Definition isDigit (c : ascii) : bool :=
  (48 <=? nat_of_ascii c)%nat && (nat_of_ascii c <=? 57)%nat.


(** ** The rest of the dialog's render (lines 282-285) *)

(** [feeEdits[f.type] ?? 0], the value shown in the fee's input. *)
Definition rowValue (f : Fee) (st : ModalState) : jsnum :=
  default zero (obj_get (type f) (feeEdits st)).

(** [invalid = v > cap], which marks the input with the error class. *)
Definition rowInvalid (f : Fee) (st : ModalState) : bool :=
  ngt (rowValue f st) (perFeeCap f).

(** ** The page ([OrderItemBreakdown], lines 391-464) *)

(** The three figures of the fee breakdown and the order summary
    (lines 412-414). *)
Definition subtotal (its : list OrderItem) : jsnum :=
  fold_left (fun acc it => (acc + amount it)%jsnum) its zero.

Definition totalRefunded (its : list OrderItem) : jsnum :=
  fold_left (fun acc it => (acc + or0 (refundedAmount it))%jsnum) its zero.

Definition totalOriginal (its : list OrderItem) : jsnum :=
  fold_left
    (fun acc it => (acc + or0 (jsor (originalAmount it) (amount it)))%jsnum)
    its zero.

(** The "Total" line: [totalOriginal - totalRefunded] (lines 540 and 558). *)
Definition orderTotal (its : list OrderItem) : jsnum :=
  (totalOriginal its - totalRefunded its)%jsnum.

(** [selectedIds]: an object from item identifiers to the checkbox state,
    enumerated in insertion order like [feeEdits]; the identifiers of the
    data model, such as ["itm_1"], are keys of that kind. *)
Definition selection : Type := list (string * bool).

Fixpoint sel_set (k : string) (b : bool) (s : selection) : selection :=
  match s with
  | [] => [(k, b)]
  | (k', b') :: s' =>
      if String.eqb k' k then (k, b) :: s' else (k', b') :: sel_set k b s'
  end.

Fixpoint sel_get (k : string) (s : selection) : option bool :=
  match s with
  | [] => None
  | (k', b') :: s' => if String.eqb k' k then Some b' else sel_get k s'
  end.

(** [onSelect(id, checked)] (lines 408-410) and [clearSelection] (line 455). *)
Definition onSelect (i : string) (checked : bool) (s : selection) : selection :=
  sel_set i checked s.

Definition clearSelection (s : selection) : selection := [].

(** [!!selectedIds[item.id]], the [selected] property of a row (line 520). *)
Definition isSelected (i : string) (s : selection) : bool :=
  default false (sel_get i s).

(** [Object.values(selectedIds).some(Boolean)] (line 405). *)
Definition bulkBarVisible (s : selection) : bool := existsb snd s.

(** [Object.values(selectedIds).filter(Boolean).length] (line 457). *)
Definition selectedCount (s : selection) : nat := length (List.filter snd s).

(** [openRefundModal(item)] (lines 416-419). *)
Definition openRefundModal (item : OrderItem) (pg : Page) : Page :=
  {| pageItems := pageItems pg; modalItem := Some item; modalOpen := true |}.

(** [Object.entries(selectedIds).find(([_, v]) => v)?.[0]]; [None] stands
    for [undefined]. *)
Definition firstSelected (s : selection) : option string :=
  fst <$> List.find snd s.

(** [items.find((it) => it.id === firstId)]; no identifier is
    [undefined], so nothing is found without a first selected one. *)
Definition findItem (firstId : option string) (its : list OrderItem)
  : option OrderItem :=
  match firstId with
  | Some k => snd <$> list_find (fun it => id it = k) its
  | None => None
  end.

(** [bulkRefund] (lines 459-464). *)
Definition bulkRefund (s : selection) (pg : Page) : Page :=
  match findItem (firstSelected s) (pageItems pg) with
  | Some first => openRefundModal first pg
  | None => pg
  end.

(** The amount named by the toast of [applyRefund] (line 443):
    [payload.items.reduce((a, b) => a + Number(b.amount || 0), 0)]. *)
Definition toastAmount (payload : Payload) : jsnum :=
  fold_left (fun a b => (a + or0 (p_amount b))%jsnum) (items payload) zero.

Definition toastMsg (intl : bool) (payload : Payload) : option string :=
  (fun s => "Refund of " +:+ s +:+ " issued")
    <$> currency intl (Number (toastAmount payload)).

(** The items served by [fetchOrderItemsMock] (lines 10-53). *)
Definition itm_2 : OrderItem :=
  {| id := "itm_2";
     title := "Drug License - Renewal";
     metadata := "Fri, Jul 26, 2024 - 01:10 PM";
     originalAmount := Num 120.0;
     amount := Num 120.0;
     refundedAmount := Num 0.0;
     fees :=
       [ mkFee "Processing fee" (Num 3.25) (Num 0.0) (Num 0.0);
         mkFee "Convenience fee" (Num 1.25) (Num 0.0) (Num 0.0);
         mkFee "Tax" (Num 7.95) (Num 7.95) (Num 7.95) ] |}.

Definition itm_3 : OrderItem :=
  {| id := "itm_3";
     title := "Drug License - New Application";
     metadata := "Sat, Jul 27, 2024 - 09:42 AM";
     originalAmount := Num 210.0;
     amount := Num 210.0;
     refundedAmount := Num 0.0;
     fees :=
       [ mkFee "Processing fee" (Num 4.25) (Num 0.0) (Num 0.0);
         mkFee "Convenience fee" (Num 1.75) (Num 0.0) (Num 0.0);
         mkFee "Tax" (Num 12.6) (Num 12.6) (Num 12.6) ] |}.

Definition fetchOrderItemsMock : list OrderItem := [itm_1; itm_2; itm_3].

(** ** Conditions used by the properties below *)

(** All three amounts of the item are numbers. *)
Definition itemFinite (it : OrderItem) : bool :=
  finite (originalAmount it) && finite (amount it)
  && finite (refundedAmount it).

(** The sum of the fee caps as [maxRefundable] adds them up. *)
Definition feeCaps (it : OrderItem) : jsnum :=
  fold_left (fun acc f => (acc + or0 (maxRefund f))%jsnum) (fees it) zero.

(** No fee's initial amount is above its cap. *)
Definition defaultsWithinCaps (it : OrderItem) : bool :=
  forallb (fun f => nle zero (feeDefault f) && nle (feeDefault f) (perFeeCap f))
          (fees it).

(** Every fee edited by the events is a fee of the item, as in the table of
    the dialog, which has one row per fee. *)
Definition eventOf (it : OrderItem) (e : event) : Prop :=
  match e with
  | ChangeFee f _ => In f (fees it)
  | _ => True
  end.

(** Every amount kept for a fee type is within the cap of a fee of that
    type. *)
Definition withinCaps (it : OrderItem) (o : obj) : Prop :=
  forall k v, In (k, v) o ->
    exists f, In f (fees it) /\ type f = k
              /\ nle zero v = true /\ nle v (perFeeCap f) = true.

(** The service never answers with a failure, as [issueRefundMock] does. *)
Definition neverFails (e : event) : Prop :=
  match e with
  | Resolve false => False
  | _ => True
  end.

(** [n] applications of the same total to an item. *)
Fixpoint refundTimes (n : nat) (it : OrderItem) (t : jsnum) : OrderItem :=
  match n with
  | O => it
  | S n' => refundItem (refundTimes n' it t) t
  end.

(** The fee amounts of the current state and of every payload handed to the
    service are within the caps. *)
Definition capsInv (it : OrderItem) (d : Dialog) : Prop :=
  withinCaps it (feeEdits (modal d))
  /\ (forall pl, In pl (issued d) ->
      exists st, pl = buildPayload it st /\ withinCaps it (feeEdits st)).


(** The message shown is the verdict on the current total, or the failure
    message of the service. *)
Definition verdictInv (it : OrderItem) (d : Dialog) : Prop :=
  error (modal d) = validate (total (modal d)) (maxRefundable (Some it))
  \/ error (modal d) = msgFailed.

(** While mounted, [submitting] tells whether a call is in flight; what is
    in flight or was passed to [onConfirm] was handed to the service before;
    once a payload was passed to [onConfirm] the dialog is closed for
    good. *)
Definition onceInv (d : Dialog) : Prop :=
  (mounted d = true -> submitting (modal d) = true -> inflight d <> [])
  /\ (forall pl, In pl (inflight d) \/ In pl (confirmed d) -> In pl (issued d))
  /\ (confirmed d = []
      \/ exists pl, confirmed d = [pl] /\ mounted d = false /\ inflight d = []).


(** [it'] is [it] after refunds: same identity, original amount and fees, an
    [amount] that did not grow and a [refundedAmount] that did not shrink. *)
Definition refundedFrom (it it' : OrderItem) : Prop :=
  id it' = id it /\ originalAmount it' = originalAmount it
  /\ fees it' = fees it
  /\ nle (amount it') (amount it) = true
  /\ nle (refundedAmount it) (refundedAmount it') = true.


(** The entries of the current state and of every payload handed to the
    service are those of the item's fees, one per fee and in their order. *)
Definition shapeInv (it : OrderItem) (d : Dialog) : Prop :=
  map fst (feeEdits (modal d)) = map type (fees it)
  /\ (forall pl, In pl (issued d) ->
      exists st, pl = buildPayload it st
                 /\ map fst (feeEdits st) = map type (fees it)).


(** The base amount of the current state and of every payload handed to the
    service counts as a non-negative number. *)
Definition baseInv (it : OrderItem) (d : Dialog) : Prop :=
  nle zero (or0 (refundAmount (modal d))) = true
  /\ (forall pl, In pl (issued d) ->
      exists st, pl = buildPayload it st
                 /\ nle zero (or0 (refundAmount st)) = true).

(** ** An amount printed with two decimals

    What the specification calls a number rendered with exactly two
    decimals, read back from the string: an optional minus sign, one or more
    digits, a point and two digits.  [readFixed2] tells whether the sign is
    there and how many hundredths the digits stand for; it is defined on the
    characters alone and shares nothing with [toFixed2]. *)
Definition digitValue (c : ascii) : option Z :=
  if isDigit c then Some (Z.of_nat (nat_of_ascii c) - 48)%Z else None.

Fixpoint readDigits (s : string) (acc : Z) : option Z :=
  match s with
  | EmptyString => Some acc
  | String c s' =>
      match digitValue c with
      | Some d => readDigits s' (10 * acc + d)%Z
      | None => None
      end
  end.

(** The text before and after the first point. *)
Fixpoint splitPoint (s : string) : option (string * string) :=
  match s with
  | EmptyString => None
  | String c s' =>
      if Ascii.eqb c "."%char then Some (EmptyString, s')
      else match splitPoint s' with
           | Some (a, b) => Some (String c a, b)
           | None => None
           end
  end.

(** The hundredths of an unsigned amount: digits, a point, two digits. *)
Definition readUnsigned (body : string) : option Z :=
  match splitPoint body with
  | Some (ip, fp) =>
      if negb (String.length ip =? 0)%nat && (String.length fp =? 2)%nat
      then match readDigits ip 0, readDigits fp 0 with
           | Some a, Some b => Some (100 * a + b)%Z
           | _, _ => None
           end
      else None
  | None => None
  end.

Definition readFixed2 (s : string) : option (bool * Z) :=
  match s with
  | String c s' =>
      if Ascii.eqb c "-"%char
      then (fun v => (true, v)) <$> readUnsigned s'
      else (fun v => (false, v)) <$> readUnsigned s
  | EmptyString => None
  end.

(** ** Keys that an object keeps in insertion order

    A key that is the decimal notation of a non-negative integer (["0"],
    ["2"], ["10"], without a leading zero) may be an integer index, which an
    object enumerates before its other keys and in numeric order; an
    assignment [defaults["__proto__"] = n] stores no entry.  For every other
    key [obj_set] is what the assignment does. *)
Definition integerLike (k : string) : bool :=
  match k with
  | EmptyString => false
  | String c rest =>
      forallb isDigit (list_ascii_of_string k)
      && (negb (Ascii.eqb c "0"%char) || String.eqb rest "")
  end.

Definition plainKey (k : string) : bool :=
  negb (integerLike k) && negb (String.eqb k "__proto__").

(** ** The arithmetic of [applyRefund] on binary64 numbers

    The same operations as [refundItem] and [totalRefund] above, lines
    433-439, on IEEE-754 double-precision numbers, the numbers the source
    computes with.  Used to evaluate the code on concrete amounts where the
    rounding of a sum or a difference matters. *)
Module F64.
Import PrimFloat.

(** [x || 0]: [NaN], [0] and [-0] are falsy. *)
Definition or0 (x : float) : float :=
  if is_nan x || (x =? 0)%float then 0%float else x.

(** [Math.max(x, y)]: [NaN] if an argument is [NaN]; of the two zeros, [+0]. *)
Definition max (x y : float) : float :=
  if is_nan x || is_nan y then nan
  else if (x <? y)%float then y
  else if (y <? x)%float then x
  else match classify x with
       | FloatClass.NZero => y
       | _ => x
       end.

(** The three amounts of an order item. *)
Record Amounts : Type := mkAmounts {
  originalAmount : float;
  amount : float;
  refundedAmount : float
}.

(** [(Number(p.amount) || 0) + feeSum] *)
Definition totalRefund (p_amount : float) (feeRefunds : list float) : float :=
  (or0 p_amount + fold_left (fun a b => a + or0 b) feeRefunds 0)%float.

(** [{ ...upd[idx], refundedAmount: ..., amount: ... }] *)
Definition refundItem (it : Amounts) (totalRefund : float) : Amounts :=
  {| originalAmount := originalAmount it;
     amount := max (or0 (amount it) - totalRefund) 0;
     refundedAmount := (or0 (refundedAmount it) + totalRefund)%float |}.

(** [originalAmount == amount + refundedAmount] *)
Definition invariant (it : Amounts) : bool :=
  (originalAmount it =? amount it + refundedAmount it)%float.

End F64.

(** * Properties *)

(** ** Numbers *)

Lemma num_eq_refl x : x =n= x.
Proof. destruct x; simpl; [reflexivity | exact I]. Qed.

Lemma num_eq_sym x y : x =n= y -> y =n= x.
Proof. destruct x, y; simpl; auto. intros H; symmetry; exact H. Qed.

Lemma num_eq_trans x y z : x =n= y -> y =n= z -> x =n= z.
Proof.
  destruct x, y, z; simpl; auto; try contradiction.
  intros H1 H2; rewrite H1; exact H2.
Qed.

#[export] Instance num_eq_equiv : Equivalence num_eq.
Proof.
  split; [exact num_eq_refl | exact num_eq_sym | exact num_eq_trans].
Qed.

Lemma Qltb_lt a b : Qltb a b = true <-> a < b.
Proof.
  unfold Qltb. rewrite negb_true_iff. split.
  - intros H. apply Qnot_le_lt. intros Hle.
    apply Qle_bool_iff in Hle. congruence.
  - intros H. destruct (Qle_bool b a) eqn:E; [|reflexivity].
    apply Qle_bool_iff in E. lra.
Qed.

Lemma Qltb_ge a b : Qltb a b = false <-> b <= a.
Proof.
  unfold Qltb. rewrite negb_false_iff. apply Qle_bool_iff.
Qed.

Lemma Qle_bool_gt a b : Qle_bool a b = false <-> b < a.
Proof.
  rewrite <- Qltb_lt. unfold Qltb. rewrite negb_true_iff. reflexivity.
Qed.

Lemma Qeq_bool_false a b : Qeq_bool a b = false <-> ~ a == b.
Proof.
  split; [apply Qeq_bool_neq|].
  intros H. destruct (Qeq_bool a b) eqn:E; [|reflexivity].
  apply Qeq_bool_iff in E. contradiction.
Qed.

(** Turns the boolean tests on rationals in the context and the goal into
    propositions that [lra] understands. *)
Ltac qbool :=
  repeat match goal with
  | H : Qle_bool _ _ = true |- _ => apply Qle_bool_iff in H
  | H : Qle_bool _ _ = false |- _ => apply Qle_bool_gt in H
  | H : Qltb _ _ = true |- _ => apply Qltb_lt in H
  | H : Qltb _ _ = false |- _ => apply Qltb_ge in H
  | H : Qeq_bool _ _ = true |- _ => apply Qeq_bool_iff in H
  | H : Qeq_bool _ _ = false |- _ => apply Qeq_bool_false in H
  | |- Qle_bool _ _ = true => apply Qle_bool_iff
  | |- Qle_bool _ _ = false => apply Qle_bool_gt
  | |- Qltb _ _ = true => apply Qltb_lt
  | |- Qltb _ _ = false => apply Qltb_ge
  | |- Qeq_bool _ _ = true => apply Qeq_bool_iff
  | |- Qeq_bool _ _ = false => apply Qeq_bool_false
  end.

(** Computes the operations on numbers whose arguments are known to be
    finite, without unfolding the rational operations under them. *)
Ltac numsimpl :=
  cbn [num_eq nadd nsub nmul nmax nmin nle nlt ngt finite isNaN] in *.

(** Splits [Qmax] and [Qmin] into their two cases. *)
Ltac qminmax :=
  repeat match goal with
  | |- context [Qmax ?a ?b] =>
      let H := fresh "Hmax" in
      destruct (Q.max_spec a b) as [[? H] | [? H]];
      rewrite H; clear H
  | |- context [Qmin ?a ?b] =>
      let H := fresh "Hmin" in
      destruct (Q.min_spec a b) as [[? H] | [? H]];
      rewrite H; clear H
  end.

Lemma finite_Num x : finite x = true -> exists q, x = Num q.
Proof. destruct x; [eauto | discriminate]. Qed.

Lemma or0_Num q : or0 (Num q) =n= Num q.
Proof.
  unfold or0, jsor, truthy.
  destruct (Qeq_bool q 0) eqn:E; simpl; qbool; lra.
Qed.

Lemma or0_finite x : finite x = true -> or0 x =n= x.
Proof. intros [q ->]%finite_Num. apply or0_Num. Qed.

Lemma or0_is_finite x : finite (or0 x) = true.
Proof.
  destruct x as [q|]; [|reflexivity].
  unfold or0, jsor, truthy. destruct (Qeq_bool q 0); reflexivity.
Qed.

#[export] Instance nadd_proper : Proper (num_eq ==> num_eq ==> num_eq) nadd.
Proof.
  intros [a|] [b|] H1 [c|] [d|] H2; simpl in *; try tauto. lra.
Qed.

#[export] Instance nsub_proper : Proper (num_eq ==> num_eq ==> num_eq) nsub.
Proof.
  intros [a|] [b|] H1 [c|] [d|] H2; simpl in *; try tauto. lra.
Qed.

#[export] Instance nmul_proper : Proper (num_eq ==> num_eq ==> num_eq) nmul.
Proof.
  intros [a|] [b|] H1 [c|] [d|] H2; simpl in *; try tauto.
  rewrite H1, H2. reflexivity.
Qed.

#[export] Instance nmax_proper : Proper (num_eq ==> num_eq ==> num_eq) nmax.
Proof.
  intros [a|] [b|] H1 [c|] [d|] H2; simpl in *; try tauto.
  rewrite H1, H2. reflexivity.
Qed.

#[export] Instance nmin_proper : Proper (num_eq ==> num_eq ==> num_eq) nmin.
Proof.
  intros [a|] [b|] H1 [c|] [d|] H2; simpl in *; try tauto.
  rewrite H1, H2. reflexivity.
Qed.

#[export] Instance nle_proper : Proper (num_eq ==> num_eq ==> eq) nle.
Proof.
  intros [a|] [b|] H1 [c|] [d|] H2; simpl in *; try tauto.
  rewrite H1, H2. reflexivity.
Qed.

#[export] Instance nlt_proper : Proper (num_eq ==> num_eq ==> eq) nlt.
Proof.
  intros [a|] [b|] H1 [c|] [d|] H2; simpl in *; try tauto.
  unfold Qltb. rewrite H1, H2. reflexivity.
Qed.

#[export] Instance ngt_proper : Proper (num_eq ==> num_eq ==> eq) ngt.
Proof. intros x y H1 z w H2. unfold ngt. rewrite H1, H2. reflexivity. Qed.

Lemma num_eqb_eq x y : num_eqb x y = true <-> x =n= y.
Proof.
  destruct x, y; simpl; try (split; [discriminate | tauto]).
  - apply Qeq_bool_iff.
  - tauto.
Qed.

Lemma nadd_assoc x y z : (x + (y + z) =n= (x + y) + z)%jsnum.
Proof. destruct x, y, z; simpl; auto. lra. Qed.

Lemma nadd_zero_r x : (x + zero =n= x)%jsnum.
Proof. destruct x; simpl; auto. lra. Qed.

Lemma nadd_zero_l x : (zero + x =n= x)%jsnum.
Proof. destruct x; simpl; auto. lra. Qed.

(** ** The maximum refundable total *)

(** The fold of line 168 adds up the caps. *)
Lemma feeCap_fold (fs : list Fee) (acc : jsnum) :
  forallb (fun f => finite (maxRefund f)) fs = true ->
  (fold_left (fun acc f => acc + or0 (maxRefund f)) fs acc
   =n= acc + sum (map maxRefund fs))%jsnum.
Proof.
  revert acc. induction fs as [|f fs IH]; intros acc Hfin; simpl.
  - symmetry. apply nadd_zero_r.
  - simpl in Hfin. apply andb_true_iff in Hfin as [Hf Hfs].
    rewrite (IH _ Hfs). rewrite (or0_finite _ Hf).
    symmetry. apply nadd_assoc.
Qed.



(** ** Validation of a requested total *)

Lemma nle_Num a b : nle (Num a) (Num b) = true <-> a <= b.
Proof. simpl. apply Qle_bool_iff. Qed.

Lemma nlt_Num a b : nlt (Num a) (Num b) = true <-> a < b.
Proof. simpl. apply Qltb_lt. Qed.

Lemma fold_or0_finite (xs : list jsnum) (a : Q) :
  exists r, fold_left (fun a b => (a + or0 b)%jsnum) xs (Num a) = Num r.
Proof.
  revert a. induction xs as [|x xs IH]; intros a; simpl; [eauto|].
  destruct (finite_Num _ (or0_is_finite x)) as [q ->]. simpl. apply IH.
Qed.

(** The requested total is always a number, whatever the inputs hold. *)
Lemma total_finite (r : jsnum) (fe : obj) :
  exists q, totalRequestedRefund r fe = Num q.
Proof.
  unfold totalRequestedRefund.
  destruct (fold_or0_finite (obj_values fe) 0) as [s Hs].
  unfold zero. rewrite Hs.
  destruct (finite_Num _ (or0_is_finite r)) as [q ->]. simpl. eauto.
Qed.

Lemma fold_or0_sum (xs : list jsnum) (acc : jsnum) :
  (fold_left (fun a b => a + or0 b) xs acc =n= acc + sum (map or0 xs))%jsnum.
Proof.
  revert acc. induction xs as [|x xs IH]; intros acc; simpl.
  - symmetry. apply nadd_zero_r.
  - rewrite IH. symmetry. apply nadd_assoc.
Qed.

Lemma wfFee_cap (f : Fee) :
  wfFee f = true ->
  exists o d m, original f = Num o /\ refundableDefault f = Num d
                /\ maxRefund f = Num m
                /\ 0 <= o /\ 0 <= d /\ d <= o /\ 0 <= m /\ m <= o.
Proof.
  unfold wfFee, within, nonneg, zero.
  destruct (original f) as [o|], (refundableDefault f) as [d|],
    (maxRefund f) as [m|]; simpl;
    rewrite ?andb_false_r; try discriminate.
  rewrite !andb_true_iff. intros [[Ho [Hd1 Hd2]] [Hm1 Hm2]]. qbool.
  exists o, d, m. repeat split; auto.
Qed.

Lemma feeCap_nonneg (fs : list Fee) (a : Q) :
  forallb wfFee fs = true -> 0 <= a ->
  exists r, fold_left (fun acc f => (acc + or0 (maxRefund f))%jsnum) fs (Num a)
            = Num r /\ 0 <= r.
Proof.
  revert a. induction fs as [|f fs IH]; intros a Hwf Ha; simpl; [eauto|].
  simpl in Hwf. apply andb_true_iff in Hwf as [Hf Hfs].
  destruct (wfFee_cap f Hf) as (o & d & m & _ & _ & Hm & _ & _ & _ & Hm0 & _).
  rewrite Hm. pose proof (or0_Num m) as Hor.
  destruct (or0 (Num m)) as [m'|] eqn:E; [|contradiction].
  simpl in Hor. simpl. apply IH; [exact Hfs | lra].
Qed.

(** A well-formed item never has a negative maximum. *)
Lemma maxRefundable_nonneg (it : OrderItem) :
  wfItem it = true ->
  exists m, maxRefundable (Some it) = Num m /\ 0 <= m.
Proof.
  unfold wfItem, nonneg, zero. rewrite !andb_true_iff.
  intros [[[_ Ha] Hr] Hfees].
  destruct (amount it) as [a|] eqn:Ea; [|discriminate].
  destruct (refundedAmount it) as [r|] eqn:Er; [|discriminate].
  unfold maxRefundable. rewrite Ea, Er.
  destruct (feeCap_nonneg (fees it) 0 Hfees ltac:(lra)) as (c & Hc & Hc0).
  unfold zero. rewrite Hc. simpl. eexists; split; [reflexivity|].
  pose proof (Q.le_max_r (a - r) 0). lra.
Qed.

#[export] Instance validate_proper : Proper (num_eq ==> num_eq ==> eq) validate.
Proof.
  intros t t' Ht m m' Hm. unfold validate.
  rewrite (nle_proper _ _ Ht _ _ (num_eq_refl zero)).
  rewrite (ngt_proper _ _ Ht _ _ Hm). reflexivity.
Qed.

Lemma validate_ok (t m : jsnum) :
  validate t m = "" <-> nle t zero = false /\ ngt t m = false.
Proof.
  unfold validate. destruct (nle t zero); [split; [discriminate | intros []; discriminate]|].
  destruct (ngt t m); [split; [discriminate | intros []; discriminate]|].
  tauto.
Qed.



(** The scenarios of the specification on [itm_1]: the full refund, a
    partial refund and the empty request. *)
Example scenario_full :
  let t := totalRequestedRefund (Num 75.00) [("Tax", Num 5.75)] in
  t =n= Num 80.75
  /\ validate t (maxRefundable (Some itm_1)) = ""
  /\ partialNote t (maxRefundable (Some itm_1)) = "".
Proof. repeat split. Qed.

Example scenario_partial :
  let t := totalRequestedRefund (Num 80.00) [] in
  t =n= Num 80
  /\ validate t (maxRefundable (Some itm_1)) = ""
  /\ partialNote t (maxRefundable (Some itm_1)) = msgPartial.
Proof. repeat split. Qed.

Example scenario_empty :
  validate (totalRequestedRefund (Num 0) []) (maxRefundable (Some itm_1))
  = msgNonPositive.
Proof. reflexivity. Qed.

(** ** Applying refunds *)

Lemma findIndex_Some (k : string) (upd : list OrderItem) (i : nat) :
  findIndex k upd = Some i ->
  exists it, upd !! i = Some it /\ id it = k.
Proof.
  unfold findIndex. destruct (list_find _ upd) as [[j it]|] eqn:E; [|discriminate].
  simpl. intros [= <-]. apply list_find_Some in E as (Hl & Hid & _). eauto.
Qed.

Lemma findIndex_None (k : string) (upd : list OrderItem) :
  findIndex k upd = None <-> Forall (fun it => id it <> k) upd.
Proof.
  unfold findIndex. rewrite fmap_None. apply list_find_None.
Qed.

(** [findIndex] only looks at the identifiers. *)
Lemma findIndex_ids (k : string) (upd upd' : list OrderItem) :
  id <$> upd = id <$> upd' -> findIndex k upd = findIndex k upd'.
Proof.
  intros H. unfold findIndex.
  assert (Hf : forall l : list OrderItem,
            fst <$> list_find (fun it => id it = k) l
            = fst <$> list_find (fun x => x = k) (id <$> l)).
  { intros l. rewrite list_find_fmap.
    destruct (list_find ((fun x => x = k) ∘ id) l) as [[j it]|] eqn:E.
    - unfold compose in E. rewrite E. reflexivity.
    - unfold compose in E. rewrite E. reflexivity. }
  rewrite !Hf, H. reflexivity.
Qed.

Lemma applyOne_matched (upd : list OrderItem) (p : PayloadItem) (i : nat)
    (it : OrderItem) :
  findIndex (p_id p) upd = Some i -> upd !! i = Some it ->
  applyOne upd p = <[i := refundItem it (totalRefund p)]> upd.
Proof. intros Hf Hl. unfold applyOne. rewrite Hf, Hl. reflexivity. Qed.

Lemma applyOne_unmatched (upd : list OrderItem) (p : PayloadItem) :
  Forall (fun it => id it <> p_id p) upd -> applyOne upd p = upd.
Proof.
  intros H. apply findIndex_None in H. unfold applyOne. rewrite H. reflexivity.
Qed.

(** A refund never changes an identifier, so the sequence of identifiers is
    the same before and after. *)
Lemma applyOne_ids (upd : list OrderItem) (p : PayloadItem) :
  id <$> applyOne upd p = id <$> upd.
Proof.
  unfold applyOne. destruct (findIndex (p_id p) upd) as [i|]; [|reflexivity].
  destruct (upd !! i) as [it|] eqn:E; [|reflexivity].
  rewrite list_fmap_insert. simpl. apply list_insert_id.
  rewrite list_lookup_fmap, E. reflexivity.
Qed.

Lemma applyOne_other (upd : list OrderItem) (p : PayloadItem) (i : nat)
    (it : OrderItem) :
  upd !! i = Some it -> id it <> p_id p -> applyOne upd p !! i = Some it.
Proof.
  intros Hl Hne. unfold applyOne.
  destruct (findIndex (p_id p) upd) as [j|] eqn:Hf; [|exact Hl].
  destruct (findIndex_Some _ _ _ Hf) as (it' & Hj & Hid).
  rewrite Hj. rewrite list_lookup_insert_ne; [exact Hl|].
  intros ->. congruence.
Qed.

Lemma applyOne_at (upd : list OrderItem) (p : PayloadItem) (i : nat)
    (it : OrderItem) :
  findIndex (p_id p) upd = Some i -> upd !! i = Some it ->
  applyOne upd p !! i = Some (refundItem it (totalRefund p)).
Proof.
  intros Hf Hl. rewrite (applyOne_matched _ _ _ _ Hf Hl).
  apply list_lookup_insert_eq. apply lookup_lt_Some in Hl. exact Hl.
Qed.

Lemma fold_applyOne_ids (l : list PayloadItem) (upd : list OrderItem) :
  id <$> fold_left applyOne l upd = id <$> upd.
Proof.
  revert upd. induction l as [|p l IH]; intros upd; simpl; [reflexivity|].
  rewrite IH. apply applyOne_ids.
Qed.

Lemma fold_applyOne_other (l : list PayloadItem) (upd : list OrderItem)
    (i : nat) (it : OrderItem) :
  upd !! i = Some it ->
  Forall (fun q => p_id q <> id it) l ->
  fold_left applyOne l upd !! i = Some it.
Proof.
  revert upd. induction l as [|p l IH]; intros upd Hl Hne; simpl; [exact Hl|].
  inversion Hne as [|? ? Hp Hrest]; subst.
  apply IH; [|exact Hrest].
  apply applyOne_other; [exact Hl | congruence].
Qed.

(** The batch in which [p] is the only request for its item: the requests
    before and after it leave that item alone. *)
Lemma fold_applyOne_at (l1 l2 : list PayloadItem) (p : PayloadItem)
    (upd : list OrderItem) (i : nat) (it : OrderItem) :
  findIndex (p_id p) upd = Some i -> upd !! i = Some it ->
  Forall (fun q => p_id q <> p_id p) (l1 ++ l2) ->
  fold_left applyOne (l1 ++ p :: l2) upd !! i
  = Some (refundItem it (totalRefund p)).
Proof.
  intros Hf Hl Hne. apply Forall_app in Hne as [Hne1 Hne2].
  destruct (findIndex_Some _ _ _ Hf) as (it0 & Hl0 & Hid).
  assert (it0 = it) by congruence. subst it0.
  rewrite fold_left_app. simpl.
  apply fold_applyOne_other.
  - apply applyOne_at.
    + rewrite (findIndex_ids _ _ upd); [exact Hf | apply fold_applyOne_ids].
    + apply fold_applyOne_other; [exact Hl|].
      rewrite Hid. exact Hne1.
  - simpl. rewrite Hid. exact Hne2.
Qed.

Lemma totalRefund_finite (p : PayloadItem) : exists q, totalRefund p = Num q.
Proof.
  unfold totalRefund, feeSum.
  set (xs := default [] (p_feeRefunds p)).
  assert (H : forall a, exists r,
             fold_left (fun a b => (a + or0 (fr_amount b))%jsnum) xs (Num a)
             = Num r).
  { induction xs as [|x xs IH]; intros a; simpl; [eauto|].
    destruct (finite_Num _ (or0_is_finite (fr_amount x))) as [q ->].
    simpl. apply IH. }
  destruct (H 0) as [s Hs]. unfold zero. rewrite Hs.
  destruct (finite_Num _ (or0_is_finite (p_amount p))) as [q ->].
  simpl. eauto.
Qed.

(** [totalRefund] is the base amount plus the sum of the fee refunds. *)
Lemma totalRefund_spec (p : PayloadItem) :
  payloadFinite p = true ->
  (totalRefund p
   =n= p_amount p + sum (map fr_amount (default [] (p_feeRefunds p))))%jsnum.
Proof.
  unfold payloadFinite, totalRefund, feeSum. rewrite andb_true_iff.
  intros [Ha Hfs]. rewrite (or0_finite _ Ha).
  apply nadd_proper; [reflexivity|].
  set (xs := default [] (p_feeRefunds p)) in *.
  assert (H : forall acc,
             (fold_left (fun a b => a + or0 (fr_amount b)) xs acc
              =n= acc + sum (map fr_amount xs))%jsnum).
  { induction xs as [|x xs IH]; intros acc; simpl.
    - symmetry. apply nadd_zero_r.
    - simpl in Hfs. apply andb_true_iff in Hfs as [Hx Hxs].
      rewrite (IH Hxs). rewrite (or0_finite _ Hx).
      symmetry. apply nadd_assoc. }
  rewrite H. apply nadd_zero_l.
Qed.



(** ** Frame: unmatched requests and untouched items *)

(** C6.  A request whose [itemId] matches no item is skipped, alone or
    anywhere inside a batch, and every item that no request of the batch
    refers to is found unchanged at its position in the output, which has
    as many items as the input. *)
Theorem applyRefund_frame (pg : Page) :
  (forall p : PayloadItem,
     Forall (fun it => id it <> p_id p) (pageItems pg) ->
     pageItems (applyRefund pg (single p)) = pageItems pg
     /\ forall (l1 l2 : list PayloadItem) (r n : string),
          pageItems (applyRefund pg (mkPayload (l1 ++ p :: l2) r n))
          = pageItems (applyRefund pg (mkPayload (l1 ++ l2) r n)))
  /\ (forall (payload : Payload) (i : nat) (it : OrderItem),
        pageItems pg !! i = Some it ->
        Forall (fun q => p_id q <> id it) (items payload) ->
        pageItems (applyRefund pg payload) !! i = Some it)
  /\ (forall payload : Payload,
        length (pageItems (applyRefund pg payload)) = length (pageItems pg)).
Proof.
  split; [|split].
  - intros p Hne. split.
    + simpl. apply applyOne_unmatched. exact Hne.
    + intros l1 l2 r n. simpl. rewrite !fold_left_app. simpl.
      f_equal. apply applyOne_unmatched.
      apply findIndex_None.
      rewrite (findIndex_ids _ _ (pageItems pg)) by apply fold_applyOne_ids.
      apply findIndex_None. exact Hne.
  - intros payload i it Hl Hne. simpl. apply fold_applyOne_other; assumption.
  - intros payload. simpl.
    rewrite <- (length_fmap id), fold_applyOne_ids, length_fmap. reflexivity.
Qed.

Lemma applyRefund_frame_witness :
  pageItems (applyRefund (pageOf [itm_1])
               (single (mkPayloadItem "itm_9" (Num 10) None)))
  = [itm_1].
Proof.
  refine (proj1 (proj1 (applyRefund_frame (pageOf [itm_1]))
                   (mkPayloadItem "itm_9" (Num 10) None) _)).
  repeat constructor. simpl. discriminate.
Defined.

(** ** The amount invariant *)

Lemma refundItem_bound (it : OrderItem) (t : jsnum) :
  finite (originalAmount it) = true ->
  finite (amount it) = true ->
  finite (refundedAmount it) = true ->
  finite t = true ->
  invariant it ->
  (t =n= amount it -> invariant (refundItem it t))
  /\ (nle (amount it) t = true ->
      amount (refundItem it t) =n= zero
      /\ nle (originalAmount (refundItem it t))
             (amount (refundItem it t) + refundedAmount (refundItem it t))%jsnum
         = true).
Proof.
  unfold invariant. simpl.
  intros [o ->]%finite_Num [a Ha]%finite_Num [r Hr]%finite_Num
    [tq ->]%finite_Num.
  rewrite Ha, Hr. simpl. intros Hinv.
  pose proof (or0_Num a) as Hoa. pose proof (or0_Num r) as Hor.
  destruct (or0 (Num a)) as [a'|]; [|contradiction].
  destruct (or0 (Num r)) as [r'|]; [|contradiction].
  simpl in *. rewrite !Qle_bool_iff.
  destruct (Q.max_spec (a' - tq) 0) as [[Hlt Hmax] | [Hle Hmax]];
    rewrite Hmax; split; intros H; try split; lra.
Qed.

(** C1, as the code has it.  In a batch where [p] is the only request for
    the item it matches, and for an item of numbers that satisfies
    [originalAmount == amount + refundedAmount], the updated item keeps its
    [originalAmount], has [amount = max(amount - totalRefund, 0)] and
    [refundedAmount = refundedAmount + totalRefund].  When [totalRefund]
    equals [amount] the updated item satisfies the invariant again.  When
    [totalRefund] is at least [amount], the new [amount] is zero and
    [amount + refundedAmount] is not below [originalAmount]: what the total
    exceeds [amount] by is clamped out of [amount] but still added to
    [refundedAmount]. *)
Theorem applyRefund_invariant_bound (pg : Page) (payload : Payload)
    (l1 l2 : list PayloadItem) (p : PayloadItem) (i : nat) (it : OrderItem) :
  items payload = l1 ++ p :: l2 ->
  Forall (fun q => p_id q <> p_id p) (l1 ++ l2) ->
  findIndex (p_id p) (pageItems pg) = Some i ->
  pageItems pg !! i = Some it ->
  finite (originalAmount it) = true ->
  finite (amount it) = true ->
  finite (refundedAmount it) = true ->
  invariant it ->
  let t := totalRefund p in
  exists it',
    pageItems (applyRefund pg payload) !! i = Some it'
    /\ originalAmount it' = originalAmount it
    /\ (amount it' =n= nmax (amount it - t) zero)%jsnum
    /\ (refundedAmount it' =n= refundedAmount it + t)%jsnum
    /\ (t =n= amount it -> invariant it')
    /\ (nle (amount it) t = true ->
        amount it' =n= zero
        /\ nle (originalAmount it') (amount it' + refundedAmount it')%jsnum
           = true).
Proof.
  intros Hitems Hne Hf Hl Ho Ha Hr Hinv t.
  assert (Ht : finite t = true).
  { unfold t. destruct (totalRefund_finite p) as [q ->]. reflexivity. }
  exists (refundItem it t). split.
  - unfold applyRefund. simpl. rewrite Hitems.
    apply fold_applyOne_at; assumption.
  - split; [reflexivity|].
    split; [simpl; rewrite (or0_finite _ Ha); reflexivity|].
    split; [simpl; rewrite (or0_finite _ Hr); reflexivity|].
    apply refundItem_bound; assumption.
Qed.

Lemma applyRefund_invariant_bound_witness :
  exists it',
    pageItems (applyRefund (pageOf [itm_1])
                 (single (mkPayloadItem "itm_1" (Num 75) None))) !! 0%nat
    = Some it'
    /\ amount it' =n= zero
    /\ invariant it'.
Proof.
  destruct (applyRefund_invariant_bound (pageOf [itm_1])
              (single (mkPayloadItem "itm_1" (Num 75) None)) [] []
              (mkPayloadItem "itm_1" (Num 75) None) 0%nat itm_1
              eq_refl (List.Forall_nil _) eq_refl eq_refl eq_refl eq_refl
              eq_refl ltac:(reflexivity))
    as (it' & H1 & _ & _ & _ & H5 & H6).
  exists it'. split; [exact H1|]. split.
  - apply H6. reflexivity.
  - apply H5. reflexivity.
Defined.

(** C1, as the specification states it, fails on the refund the dialog
    proposes by default for [itm_1]: the request passes validation, and the
    updated item has [amount = 0] and [refundedAmount = 80.75] against
    [originalAmount = 75]. *)
Lemma invariant_counterexample :
  wfItem itm_1 = true
  /\ invariant itm_1
  /\ error (mountModal itm_1) = ""
  /\ issued (run itm_1 [Confirm]) = [buildPayload itm_1 (mountModal itm_1)]
  /\ exists it',
       pageItems (applyRefund (pageOf [itm_1])
                    (buildPayload itm_1 (mountModal itm_1))) !! 0%nat
       = Some it'
       /\ amount it' =n= Num 0
       /\ refundedAmount it' =n= Num 80.75
       /\ ~ invariant it'.
Proof.
  split; [reflexivity|]. split; [reflexivity|]. split; [reflexivity|].
  split; [reflexivity|].
  eexists. split; [reflexivity|]. split; [reflexivity|].
  split; [reflexivity|].
  unfold invariant. simpl. unfold Qeq. simpl. lia.
Qed.

(** ** Applying the same refund twice *)

(** C7, as the code has it.  For a matched item with a numeric
    [refundedAmount] and a request of total [t > 0], applying the request
    and then applying it again adds [t] to [refundedAmount] twice, one
    addition after the other: the result is [(refundedAmount + t) + t], and
    neither application lowers [refundedAmount]. *)
Theorem applyRefund_twice (pg : Page) (p : PayloadItem) (i : nat)
    (it : OrderItem) :
  findIndex (p_id p) (pageItems pg) = Some i ->
  pageItems pg !! i = Some it ->
  finite (refundedAmount it) = true ->
  ngt (totalRefund p) zero = true ->
  let t := totalRefund p in
  let once := applyRefund pg (single p) in
  let twice := applyRefund once (single p) in
  exists it1 it2,
    pageItems once !! i = Some it1
    /\ pageItems twice !! i = Some it2
    /\ (refundedAmount it1 =n= refundedAmount it + t)%jsnum
    /\ (refundedAmount it2 =n= (refundedAmount it + t) + t)%jsnum
    /\ nle (refundedAmount it) (refundedAmount it1) = true
    /\ nle (refundedAmount it1) (refundedAmount it2) = true.
Proof.
  intros Hf Hl Hr Ht t once twice.
  set (it1 := refundItem it t). set (it2 := refundItem it1 t).
  assert (H1 : pageItems once !! i = Some it1).
  { unfold once. simpl. apply applyOne_at; assumption. }
  assert (H2 : pageItems twice !! i = Some it2).
  { unfold twice. simpl. apply applyOne_at; [|exact H1].
    rewrite (findIndex_ids _ _ (pageItems pg)); [exact Hf|].
    unfold once. simpl. apply applyOne_ids. }
  exists it1, it2. split; [exact H1|]. split; [exact H2|].
  unfold it2, it1. simpl. unfold t in *.
  destruct (totalRefund_finite p) as [tq Htq]. rewrite Htq in *.
  destruct (finite_Num _ Hr) as [r ->].
  pose proof (or0_Num r) as Hor.
  destruct (or0 (Num r)) as [r'|]; [|contradiction]. simpl.
  pose proof (or0_Num (r' + tq)) as Hor'.
  destruct (or0 (Num (r' + tq))) as [r''|]; [|contradiction]. simpl in *.
  unfold ngt, zero in Ht. simpl in Ht. qbool.
  repeat split; try lra; qbool; lra.
Qed.

Lemma applyRefund_twice_witness :
  exists it2,
    pageItems (applyRefund
                 (applyRefund (pageOf [itm_1])
                    (single (mkPayloadItem "itm_1" (Num 10) None)))
                 (single (mkPayloadItem "itm_1" (Num 10) None))) !! 0%nat
    = Some it2
    /\ (refundedAmount it2 =n= (Num 0 + Num 10) + Num 10)%jsnum.
Proof.
  destruct (applyRefund_twice (pageOf [itm_1])
              (mkPayloadItem "itm_1" (Num 10) None) 0%nat itm_1
              eq_refl eq_refl eq_refl eq_refl)
    as (it1 & it2 & _ & H2 & _ & H4 & _).
  exists it2. split; [exact H2 | rewrite H4; reflexivity].
Defined.

Module Rounding.
Import PrimFloat.
#[local] Set Warnings "-inexact-float".

(** C7, as the specification states it, fails on binary64 numbers.  For an
    item with [refundedAmount = 5.75] and a request of total [0.1], two
    applications leave [refundedAmount = 5.949999999999999], which is not
    [5.75 + 2 * 0.1 = 5.95], and the increase is not [2 * 0.1].  For an
    item with [refundedAmount = 2^53] and a request of total [1], two
    applications leave [refundedAmount] as it was. *)
Lemma refund_twice_counterexample :
  let it := F64.mkAmounts 80.75%float 75%float 5.75%float in
  let t := F64.totalRefund 0.1%float [] in
  let it2 := F64.refundItem (F64.refundItem it t) t in
  let big := F64.mkAmounts 9007199254740992%float 0%float
               9007199254740992%float in
  let big2 := F64.refundItem (F64.refundItem big 1%float) 1%float in
  (0 <? t)%float = true
  /\ (F64.refundedAmount it2 =? 5.949999999999999)%float = true
  /\ (F64.refundedAmount it2 =? F64.refundedAmount it + 2 * t)%float = false
  /\ (F64.refundedAmount it2 - F64.refundedAmount it =? 2 * t)%float = false
  /\ (F64.refundedAmount big2 =? F64.refundedAmount big)%float = true.
Proof. vm_compute. repeat split. Qed.

(** A partial refund of [1.6] on an item with [originalAmount = 6.3],
    [amount = 6.3] and nothing refunded: the item satisfies
    [originalAmount == amount + refundedAmount] before, and after the refund
    [4.7 + 1.6] is [6.299999999999999]. *)
Example partial_refund_rounding :
  let it := F64.mkAmounts 6.3%float 6.3%float 0%float in
  F64.invariant it = true
  /\ F64.invariant (F64.refundItem it (F64.totalRefund 1.6%float [])) = false.
Proof. vm_compute. split; reflexivity. Qed.

End Rounding.

(** ** The dialog's initial values *)

Lemma obj_get_set_eq (k : string) (v : jsnum) (o : obj) :
  obj_get k (obj_set k v o) = Some v.
Proof.
  induction o as [|[k' v'] o IH]; simpl.
  - rewrite String.eqb_refl. reflexivity.
  - destruct (String.eqb k' k) eqn:E; simpl.
    + rewrite String.eqb_refl. reflexivity.
    + rewrite E. exact IH.
Qed.

Lemma obj_get_set_ne (k k' : string) (v : jsnum) (o : obj) :
  k <> k' -> obj_get k' (obj_set k v o) = obj_get k' o.
Proof.
  intros Hne. induction o as [|[k0 v0] o IH]; simpl.
  - apply String.eqb_neq in Hne. rewrite Hne. reflexivity.
  - destruct (String.eqb k0 k) eqn:E; simpl.
    + apply String.eqb_eq in E. subst k0.
      apply String.eqb_neq in Hne. rewrite Hne. reflexivity.
    + destruct (String.eqb k0 k'); [reflexivity | exact IH].
Qed.

Lemma feeDefaults_skip (fs : list Fee) (o : obj) (k : string) :
  ~ In k (map type fs) ->
  obj_get k (fold_left (fun d f => obj_set (type f) (feeDefault f) d) fs o)
  = obj_get k o.
Proof.
  revert o. induction fs as [|f fs IH]; intros o Hk; simpl; [reflexivity|].
  simpl in Hk. rewrite IH by tauto.
  apply obj_get_set_ne. intros E. apply Hk. left. exact E.
Qed.

(** With fee types unique within the item, every fee finds its own default
    under its type. *)
Lemma feeDefaults_get (fs : list Fee) (o : obj) (f : Fee) :
  List.NoDup (map type fs) -> In f fs ->
  obj_get (type f)
    (fold_left (fun d f => obj_set (type f) (feeDefault f) d) fs o)
  = Some (feeDefault f).
Proof.
  revert o. induction fs as [|g fs IH]; intros o Hnd Hin; simpl; [destruct Hin|].
  simpl in Hnd. inversion Hnd as [|? ? Hg Hrest]; subst.
  destruct Hin as [-> | Hin].
  - rewrite feeDefaults_skip by exact Hg. apply obj_get_set_eq.
  - apply IH; assumption.
Qed.

Lemma mountModal_fields (it : OrderItem) :
  refundAmount (mountModal it) = (amount it - refundedAmount it)%jsnum
  /\ feeEdits (mountModal it) = feeDefaults (fees it)
  /\ submitting (mountModal it) = false.
Proof.
  unfold mountModal, rerender.
  destruct (num_eqb _ _); simpl; auto.
Qed.

(** C9.  When the dialog opens, the base refund amount is
    [amount - refundedAmount], not clamped, hence negative whenever
    [refundedAmount > amount]; the editable refund of each fee is its
    [feeDefault], which is [min(refundableDefault, maxRefund)] when
    [maxRefund > 0] and [refundableDefault] when [maxRefund == 0]; for a fee
    with [maxRefund == 0] and [refundableDefault > 0] this exceeds the
    per-fee cap [min(maxRefund, original)]. *)
Theorem mount_initial_values (it : OrderItem) :
  refundAmount (mountModal it) = (amount it - refundedAmount it)%jsnum
  /\ (ngt (refundedAmount it) (amount it) = true ->
      nlt (refundAmount (mountModal it)) zero = true)
  /\ (forall f, List.NoDup (map type (fees it)) -> In f (fees it) ->
      obj_get (type f) (feeEdits (mountModal it)) = Some (feeDefault f))
  /\ (forall f, finite (refundableDefault f) = true ->
      ngt (maxRefund f) zero = true ->
      feeDefault f =n= nmin (refundableDefault f) (maxRefund f))
  /\ (forall f, finite (refundableDefault f) = true ->
      maxRefund f =n= zero ->
      feeDefault f =n= refundableDefault f)
  /\ (forall f, finite (original f) = true ->
      maxRefund f =n= zero ->
      ngt (refundableDefault f) zero = true ->
      ngt (feeDefault f) (perFeeCap f) = true).
Proof.
  destruct (mountModal_fields it) as (Hr & Hf & _).
  split; [exact Hr|]. split; [|split; [|split; [|split]]].
  - rewrite Hr. unfold ngt, zero.
    destruct (refundedAmount it) as [r|], (amount it) as [a|]; simpl;
      try discriminate.
    intros H. qbool. lra.
  - intros f Hnd Hin. rewrite Hf. apply feeDefaults_get; assumption.
  - intros f [d Hd]%finite_Num Hm. unfold feeDefault. rewrite Hd.
    unfold ngt, zero in Hm. destruct (maxRefund f) as [m|]; [|discriminate].
    simpl in Hm. qbool.
    unfold jsor, truthy.
    destruct (Qeq_bool m 0) eqn:E; simpl; qbool; [lra|].
    rewrite (or0_Num d).
    pose proof (or0_Num m) as Hom. rewrite Hom. reflexivity.
  - intros f [d Hd]%finite_Num Hm. unfold feeDefault. rewrite Hd.
    destruct (maxRefund f) as [m|]; [|contradiction].
    unfold zero in Hm. simpl in Hm.
    unfold jsor, truthy.
    destruct (Qeq_bool m 0) eqn:E; simpl; qbool; [|contradiction].
    pose proof (or0_Num d) as Hod.
    destruct (or0 (Num d)) as [d'|] eqn:Ed; [|contradiction].
    numsimpl. qminmax; lra.
  - intros f [o Ho]%finite_Num Hm Hd. unfold feeDefault, perFeeCap.
    rewrite Ho.
    destruct (maxRefund f) as [m|]; [|contradiction].
    unfold zero in Hm. simpl in Hm.
    unfold ngt, zero in Hd.
    destruct (refundableDefault f) as [d|]; [|discriminate].
    simpl in Hd. qbool.
    unfold jsor, truthy.
    destruct (Qeq_bool m 0) eqn:E; simpl; qbool; [|contradiction].
    pose proof (or0_Num d) as Hod.
    destruct (or0 (Num d)) as [d'|] eqn:Ed; [|contradiction].
    pose proof (or0_Num m) as Hom.
    destruct (or0 (Num m)) as [m'|] eqn:Em; [|contradiction].
    pose proof (or0_Num o) as Hoo.
    destruct (or0 (Num o)) as [o'|] eqn:Eo; [|contradiction].
    numsimpl. qbool.
    pose proof (Q.le_min_l m' o'). rewrite Q.min_id. lra.
Qed.

Lemma mount_initial_values_witness :
  obj_get "Processing fee" (feeEdits (mountModal itm_default))
  = Some (feeDefault feeNonRefundable)
  /\ ngt (feeDefault feeNonRefundable) (perFeeCap feeNonRefundable) = true.
Proof.
  split.
  - apply (proj1 (proj2 (proj2 (mount_initial_values itm_default)))
             feeNonRefundable).
    + repeat constructor. simpl. tauto.
    + simpl. tauto.
  - apply (proj2 (proj2 (proj2 (proj2 (proj2
             (mount_initial_values itm_default)))))
             feeNonRefundable); reflexivity.
Defined.

(** ** The per-fee cap *)

(** C4.  The code departs from the claim on [itm_default], an item of the
    data model with a fee whose [maxRefund] is [0]: the cap of the fee is
    [min(maxRefund, original) = 0], as [handleFeeChange] (line 192) and the
    row's render (line 283) compute it, but the initial amount of line 159
    falls back to [refundableDefault] and the dialog opens with [1.00] for
    the fee.  Once the base amount is lowered to [74.00] the total equals
    the maximum, the validating effect reports no error, and the confirm
    action hands the entry above its cap to the service. *)
Lemma fee_cap_counterexample :
  wfItem itm_default = true
  /\ perFeeCap feeNonRefundable =n= Num 0
  /\ exists e,
       obj_get "Processing fee"
         (feeEdits (modal (run itm_default [ChangeAmount (Num 74)]))) = Some e
       /\ ngt e (perFeeCap feeNonRefundable) = true
       /\ error (modal (run itm_default [ChangeAmount (Num 74)])) = ""
       /\ issued (run itm_default [ChangeAmount (Num 74); Confirm])
          = [ single (mkPayloadItem "itm_d" (Num 74)
                        (Some [mkFeeRefund "Processing fee" e])) ].
Proof.
  split; [reflexivity|]. split; [reflexivity|].
  eexists. split; [reflexivity|]. split; [reflexivity|].
  split; reflexivity.
Qed.

(** ** The confirmation dialog as a transition system *)

(** The fee amounts of a payload add up to the fee amounts of the state it
    was built from. *)
Lemma feeRefunds_fold (o : obj) (acc acc' : jsnum) :
  acc =n= acc' ->
  fold_left (fun a b => (a + or0 (fr_amount b))%jsnum)
    (map (fun e => {| fr_type := fst e; fr_amount := or0 (snd e) |}) o) acc
  =n= fold_left (fun a b => (a + or0 b)%jsnum) (obj_values o) acc'.
Proof.
  revert acc acc'. induction o as [|[k v] o IH]; intros acc acc' Hacc; simpl;
    [exact Hacc|].
  apply IH. apply nadd_proper; [exact Hacc|].
  apply or0_finite, or0_is_finite.
Qed.

Section DialogInstance.

Variable it : OrderItem.

Let maxR : jsnum := maxRefundable (Some it).

Lemma rerender_inv (old st : ModalState) :
  error st = error old ->
  (error old = "" -> validate (total old) maxR = "") ->
  error (rerender it (total old) st) = "" ->
  validate (total (rerender it (total old) st)) maxR = "".
Proof.
  intros He Hold. unfold rerender.
  destruct (num_eqb (total st) (total old)) eqn:E.
  - intros Herr. apply num_eqb_eq in E.
    rewrite (validate_proper _ _ E _ _ (num_eq_refl maxR)).
    apply Hold. congruence.
  - simpl. intros H. exact H.
Qed.

Lemma rerender_submitting (t : jsnum) (st : ModalState) :
  submitting (rerender it t st) = submitting st.
Proof. unfold rerender. destruct (num_eqb _ _); reflexivity. Qed.

Lemma mount_inv : dialogInv it (mount it).
Proof.
  unfold dialogInv. simpl. repeat split.
  - lia.
  - intros _. unfold mountModal, rerender.
    destruct (num_eqb _ _) eqn:E; simpl.
    + discriminate.
    + intros H. exact H.
  - intros pl [].
Qed.

Lemma step_inv (d : Dialog) (e : event) :
  dialogInv it d -> dialogInv it (step it d e).
Proof.
  intros Hinv. pose proof Hinv as (Hlen & Hsub & Herr & Hiss).
  destruct e as [v | f v | | ok | ]; simpl.
  - (* the amount input *)
    destruct (mounted d) eqn:Hm; [|exact Hinv].
    unfold dialogInv. simpl. rewrite Hm, rerender_submitting. simpl.
    repeat split; auto.
    intros _. apply rerender_inv; [reflexivity | auto].
  - (* a fee input *)
    destruct (mounted d) eqn:Hm; [|exact Hinv].
    unfold dialogInv. simpl. rewrite Hm, rerender_submitting. simpl.
    repeat split; auto.
    intros _. apply rerender_inv; [reflexivity | auto].
  - (* the confirm action *)
    destruct (mounted d) eqn:Hm; [|exact Hinv].
    unfold handleConfirm.
    destruct (String.eqb (error (modal d)) "") eqn:Ee; simpl; [|exact Hinv].
    destruct (submitting (modal d)) eqn:Es; simpl; [exact Hinv|].
    apply String.eqb_eq in Ee.
    unfold dialogInv. simpl. rewrite Hm.
    rewrite (Hsub eq_refl eq_refl). simpl.
    repeat split; auto; try discriminate.
    intros pl Hin. apply in_app_or in Hin as [Hin | [<- | []]]; [auto|].
    exists (modal d). split; [reflexivity | auto].
  - (* the service answers *)
    unfold resolveConfirm.
    destruct (inflight d) as [|pl rest] eqn:Ei; [exact Hinv|].
    assert (rest = []) as ->.
    { simpl in Hlen. destruct rest; [reflexivity | simpl in Hlen; lia]. }
    unfold dialogInv. simpl.
    repeat split; auto; try lia.
    destruct ok; [discriminate|].
    destruct (mounted d); [simpl; discriminate | discriminate].
  - (* the page closes the dialog *)
    unfold dialogInv. simpl. repeat split; auto; discriminate.
Qed.

Lemma run_inv (es : list event) : dialogInv it (run it es).
Proof.
  unfold run. induction es as [|e es IH] using rev_ind; simpl.
  - apply mount_inv.
  - rewrite fold_left_app. simpl. apply step_inv. exact IH.
Qed.

(** Only the confirm action hands a payload to the service. *)
Lemma step_issued (d : Dialog) (e : event) :
  issued (step it d e) <> issued d ->
  e = Confirm /\ mounted d = true /\ error (modal d) = ""
  /\ submitting (modal d) = false
  /\ issued (step it d e) = issued d ++ [buildPayload it (modal d)].
Proof.
  destruct e as [v | f v | | ok | ]; simpl.
  - destruct (mounted d); intros H; exfalso; apply H; reflexivity.
  - destruct (mounted d); intros H; exfalso; apply H; reflexivity.
  - destruct (mounted d); [|intros H; exfalso; apply H; reflexivity].
    unfold handleConfirm.
    destruct (String.eqb (error (modal d)) "") eqn:Ee; simpl;
      [|intros H; exfalso; apply H; reflexivity].
    destruct (submitting (modal d)) eqn:Es; simpl;
      [intros H; exfalso; apply H; reflexivity|].
    apply String.eqb_eq in Ee. intros _. repeat split; auto.
  - unfold resolveConfirm. destruct (inflight d); simpl;
      intros H; exfalso; apply H; reflexivity.
  - intros H; exfalso; apply H; reflexivity.
Qed.

(** The total of a payload built by [handleConfirm] is the total that was
    validated. *)
Lemma buildPayload_total (st : ModalState) :
  exists p, items (buildPayload it st) = [p]
            /\ p_id p = id it /\ totalRefund p =n= total st.
Proof.
  eexists. split; [reflexivity|]. split; [reflexivity|].
  unfold totalRefund, feeSum, total, totalRequestedRefund. simpl.
  apply nadd_proper.
  - apply or0_finite, or0_is_finite.
  - apply feeRefunds_fold. reflexivity.
Qed.

(** C8.  In every state a dialog instance reaches, whatever the events: at
    most one submission is in flight; while [error] is set or a submission is
    in flight the confirm button is disabled and the confirm action changes
    nothing; a payload reaches the service only through a confirm action
    taken with no error, nothing in flight and a total that passes
    validation; and so every payload the service ever received carries a
    total that is positive and within [maxRefundable(item)]. *)
Theorem dialog_submission_safety (es : list event) :
  let d := run it es in
  let m := maxRefundable (Some it) in
  (length (inflight d) <= 1)%nat
  /\ (error (modal d) <> "" \/ submitting (modal d) = true ->
      confirmDisabled (modal d) = true /\ step it d Confirm = d)
  /\ (forall e : event,
        issued (step it d e) <> issued d ->
        e = Confirm
        /\ error (modal d) = "" /\ submitting (modal d) = false
        /\ inflight d = []
        /\ validate (total (modal d)) m = ""
        /\ issued (step it d e) = issued d ++ [buildPayload it (modal d)])
  /\ (forall pl : Payload,
        In pl (issued d) ->
        exists p, items pl = [p]
                  /\ nle (totalRefund p) zero = false
                  /\ ngt (totalRefund p) m = false).
Proof.
  intros d m. destruct (run_inv es) as (Hlen & Hsub & Herr & Hiss).
  fold d in Hlen, Hsub, Herr, Hiss. fold m in Herr, Hiss.
  split; [exact Hlen|]. split; [|split].
  - intros H. unfold confirmDisabled. simpl. unfold handleConfirm.
    destruct (String.eqb (error (modal d)) "") eqn:Ee; simpl;
      [|split; [reflexivity | destruct (mounted d); reflexivity]].
    destruct (submitting (modal d)) eqn:Es; simpl;
      [split; [reflexivity | destruct (mounted d); reflexivity]|].
    apply String.eqb_eq in Ee.
    destruct H as [H | H]; [contradiction | discriminate].
  - intros e He.
    destruct (step_issued d e He) as (-> & Hm & Hno & Hns & Hnew).
    repeat split; auto.
  - intros pl Hin. destruct (Hiss pl Hin) as (st & -> & Hv).
    destruct (buildPayload_total st) as (p & Hp & _ & Ht).
    exists p. split; [exact Hp|].
    apply validate_ok. unfold m.
    rewrite (validate_proper _ _ Ht _ _ (num_eq_refl _)). exact Hv.
Qed.

End DialogInstance.

Lemma dialog_submission_safety_witness :
  issued (run itm_1 [Confirm]) = [buildPayload itm_1 (mountModal itm_1)]
  /\ step itm_1 (run itm_1 [Confirm]) Confirm = run itm_1 [Confirm].
Proof.
  split; [reflexivity|].
  apply (proj1 (proj2 (dialog_submission_safety itm_1 [Confirm]))).
  right. reflexivity.
Defined.

(** The confirm button is rendered enabled only when [handleConfirm] is
    going to submit. *)
Lemma confirm_enabled (st : ModalState) :
  confirmDisabled st = false ->
  error st = "" /\ submitting st = false /\ nle (total st) zero = false.
Proof.
  unfold confirmDisabled. rewrite !orb_false_iff, negb_false_iff.
  intros [[He Hs] Ht]. apply String.eqb_eq in He. auto.
Qed.

(** A failed submission leaves the dialog mounted with the failure message;
    a successful one hands the payload to the page and closes it. *)
Example run_failed :
  let d := run itm_1 [Confirm; Resolve false] in
  mounted d = true /\ error (modal d) = msgFailed
  /\ submitting (modal d) = false /\ inflight d = [] /\ confirmed d = [].
Proof. repeat split. Qed.

Example run_applied :
  let d := run itm_1 [Confirm; Resolve true] in
  mounted d = false /\ inflight d = []
  /\ confirmed d = [buildPayload itm_1 (mountModal itm_1)].
Proof. repeat split. Qed.

(** ** Currency formatting *)

Lemma cents_proper (q q' : Q) : q == q' -> cents q = cents q'.
Proof. intros H. unfold cents. rewrite H. reflexivity. Qed.

Lemma sign_proper (q q' : Q) : q == q' -> sign q = sign q'.
Proof. intros H. unfold sign, Qltb. rewrite H. reflexivity. Qed.

Lemma cents_nonneg (q : Q) : (0 <= cents q)%Z.
Proof.
  unfold cents. pose proof (Qabs_nonneg q).
  assert (H0 : 0 <= 100 * Qabs q + (1 # 2)) by lra.
  apply Qfloor_resp_le in H0. exact H0.
Qed.

(** Rounding to the nearest hundredth, ties away from zero. *)
Lemma cents_round (q : Q) :
  -(1 # 2) < inject_Z (cents q) - 100 * Qabs q <= 1 # 2.
Proof.
  unfold cents.
  pose proof (Qfloor_le (100 * Qabs q + (1 # 2))).
  pose proof (Qlt_floor (100 * Qabs q + (1 # 2))) as Hlt.
  rewrite inject_Z_plus in Hlt. change (inject_Z 1) with 1 in Hlt.
  split; lra.
Qed.

Lemma digit_isDigit (d : Z) : (0 <= d <= 9)%Z -> isDigit (digit d) = true.
Proof.
  intros Hd. unfold isDigit, digit.
  assert (Hn : (Z.to_nat d <= 9)%nat) by lia.
  rewrite nat_ascii_embedding by lia.
  apply andb_true_iff. split; [apply Nat.leb_le | apply Nat.leb_le]; lia.
Qed.

Lemma string_of_uint_digits (d : Decimal.uint) :
  forallb isDigit (list_ascii_of_string (NilEmpty.string_of_uint d)) = true.
Proof. induction d; simpl; auto. Qed.

Lemma digits_isDigit (z : Z) :
  forallb isDigit (list_ascii_of_string (digits z)) = true.
Proof.
  unfold digits, NilZero.string_of_uint.
  destruct (N.to_uint (Z.to_N z)); try apply string_of_uint_digits.
  reflexivity.
Qed.

Lemma numberOr0_Num (q : Q) :
  exists q', numberOr0 (Number (Num q)) = Num q' /\ q' == q.
Proof.
  simpl. pose proof (or0_Num q) as H.
  destruct (or0 (Num q)) as [q'|]; [|contradiction]. eauto.
Qed.

(** The digits printed are read back as the integer they stand for. *)
Lemma readDigits_acc (d : Decimal.uint) (acc : positive) :
  readDigits (NilEmpty.string_of_uint d) (Z.pos acc)
  = Some (Z.pos (Pos.of_uint_acc d acc)).
Proof.
  revert acc. induction d; intros acc; simpl; try reflexivity;
    rewrite <- IHd; f_equal;
    match goal with
    | |- context [nat_of_ascii ?c] =>
        let n := eval vm_compute in (Z.of_nat (nat_of_ascii c) - 48)%Z in
        change (Z.of_nat (nat_of_ascii c) - 48)%Z with n
    end; lia.
Qed.

Lemma readDigits_uint (d : Decimal.uint) :
  readDigits (NilEmpty.string_of_uint d) 0 = Some (Z.of_N (Pos.of_uint d)).
Proof.
  induction d; simpl; try reflexivity; try exact IHd;
    (etransitivity; [|apply readDigits_acc]); reflexivity.
Qed.

Lemma digits_read (z : Z) : (0 <= z)%Z -> readDigits (digits z) 0 = Some z.
Proof.
  intros Hz. unfold digits, NilZero.string_of_uint.
  assert (H : readDigits (NilEmpty.string_of_uint (N.to_uint (Z.to_N z))) 0
              = Some z).
  { rewrite readDigits_uint. f_equal.
    change (Pos.of_uint (N.to_uint (Z.to_N z)))
      with (N.of_uint (N.to_uint (Z.to_N z))).
    rewrite DecimalN.Unsigned.of_to. lia. }
  destruct (N.to_uint (Z.to_N z)); exact H.
Qed.

Lemma digits_first (z : Z) :
  exists c r, digits z = String c r /\ isDigit c = true.
Proof.
  pose proof (digits_isDigit z) as H.
  assert (Hne : digits z <> EmptyString).
  { unfold digits, NilZero.string_of_uint.
    destruct (N.to_uint (Z.to_N z)); discriminate. }
  destruct (digits z) as [|c r]; [contradiction|].
  exists c, r. split; [reflexivity|].
  simpl in H. apply andb_true_iff in H. tauto.
Qed.

Lemma digitValue_digit (d : Z) :
  (0 <= d <= 9)%Z -> digitValue (digit d) = Some d.
Proof.
  intros Hd. unfold digitValue. rewrite digit_isDigit by exact Hd.
  unfold digit. rewrite nat_ascii_embedding by lia. f_equal. lia.
Qed.

Lemma decimals_read (n : Z) :
  (0 <= n)%Z ->
  String.length (decimals n) = 2%nat
  /\ readDigits (decimals n) 0 = Some (n mod 100)%Z.
Proof.
  intros Hn. split; [reflexivity|].
  unfold decimals. cbn [readDigits].
  pose proof (Z.mod_pos_bound (n / 10) 10 ltac:(lia)) as H1.
  pose proof (Z.mod_pos_bound n 10 ltac:(lia)) as H2.
  rewrite !digitValue_digit by lia. f_equal.
  Z.to_euclidean_division_equations. lia.
Qed.

Lemma isDigit_not_point (c : ascii) :
  isDigit c = true -> Ascii.eqb c "."%char = false /\ Ascii.eqb c "-"%char = false.
Proof.
  intros H. unfold isDigit in H. apply andb_true_iff in H as [H1 H2].
  split; apply Ascii.eqb_neq; intros ->; discriminate H1.
Qed.

Lemma splitPoint_digits (a b : string) :
  forallb isDigit (list_ascii_of_string a) = true ->
  splitPoint (a +:+ String "."%char b) = Some (a, b).
Proof.
  induction a as [|c a IH]; simpl; [reflexivity|].
  intros [Hc Ha]%andb_true_iff.
  rewrite (proj1 (isDigit_not_point c Hc)), (IH Ha). reflexivity.
Qed.

Lemma readFixed2_signed (s : string) (v : Z) :
  readUnsigned s = Some v -> readFixed2 (String "-"%char s) = Some (true, v).
Proof. intros H. simpl. rewrite H. reflexivity. Qed.

Lemma readFixed2_unsigned (c : ascii) (r : string) (v : Z) :
  Ascii.eqb c "-"%char = false ->
  readUnsigned (String c r) = Some v ->
  readFixed2 (String c r) = Some (false, v).
Proof. intros Hc H. unfold readFixed2. rewrite Hc, H. reflexivity. Qed.

(** What [toFixed2] prints below [10^21] reads as the sign of the number and
    its magnitude in hundredths, rounded. *)
Lemma toFixed2_read (q : Q) :
  Qabs q < 10 ^ 21 ->
  exists s, toFixed2 (Num q) = Some s
            /\ readFixed2 s = Some (Qltb q 0, cents q).
Proof.
  intros Hq.
  assert (Hr : Qle_bool (10 ^ 21) (Qabs q) = false) by (qbool; exact Hq).
  unfold toFixed2. rewrite Hr. eexists. split; [reflexivity|].
  pose proof (cents_nonneg q) as Hc.
  assert (Hbody :
    readUnsigned (digits (cents q / 100) +:+ "." +:+ decimals (cents q))
    = Some (cents q)).
  { unfold readUnsigned.
    change ("." +:+ decimals (cents q))
      with (String "."%char (decimals (cents q))).
    rewrite splitPoint_digits by apply digits_isDigit.
    destruct (digits_first (cents q / 100)) as (c & r & Hd & _).
    destruct (decimals_read (cents q) Hc) as [Hl Hf].
    rewrite Hl, Hf, digits_read by (apply Z.div_pos; lia).
    rewrite Hd. cbn [String.length Nat.eqb negb andb].
    f_equal. pose proof (Z.div_mod (cents q) 100). lia. }
  unfold sign. destruct (Qltb q 0).
  - apply (readFixed2_signed _ _ Hbody).
  - destruct (digits_first (cents q / 100)) as (c & r & Hd & Hdig).
    change ("" +:+ ?x) with x. rewrite Hd in Hbody |- *.
    apply readFixed2_unsigned; [|exact Hbody].
    apply (isDigit_not_point c Hdig).
Qed.




(** Numbers with at most two decimals that binary64 represents exactly, on
    the [Intl] path. *)
Example intlFormat_examples :
  currency true (Number (Num 1234.5)) = Some "$1,234.50"
  /\ currency true (Number (Num (-80.75))) = Some "-$80.75"
  /\ currency true (Number (Num 1234567.25)) = Some "$1,234,567.25"
  /\ currency true (Number (Num 0.5)) = Some "$0.50"
  /\ currency true (Number (Num 1000000)) = Some "$1,000,000.00".
Proof. repeat split. Qed.

Example currency_examples :
  currency false (Number (Num 1234567.895)) = Some "$1234567.90"
  /\ currency false (Number (Num (-80.75))) = Some "$-80.75"
  /\ currency false (Number (Num 0.005)) = Some "$0.01"
  /\ currency false (Number (Num (-0.001))) = Some "$-0.00"
  /\ readFixed2 "-80.75" = Some (true, 8075%Z)
  /\ readFixed2 "1234567.90" = Some (false, 123456790%Z)
  /\ readFixed2 "1,234.50" = None
  /\ readFixed2 "12.5" = None
  /\ readFixed2 ".50" = None.
Proof. repeat split. Qed.

(** * Further properties of the code *)

(** ** Editing a fee amount *)

Lemma obj_set_keys_in (k : string) (v : jsnum) (o : obj) :
  In k (map fst o) -> map fst (obj_set k v o) = map fst o.
Proof.
  induction o as [|[k' v'] o IH]; simpl; [tauto|].
  intros Hin. destruct (String.eqb k' k) eqn:E; simpl.
  - apply String.eqb_eq in E. subst. reflexivity.
  - apply String.eqb_neq in E. f_equal. apply IH.
    destruct Hin as [-> | Hin]; [contradiction | exact Hin].
Qed.

Lemma obj_set_keys_new (k : string) (v : jsnum) (o : obj) :
  ~ In k (map fst o) -> obj_set k v o = o ++ [(k, v)].
Proof.
  induction o as [|[k' v'] o IH]; simpl; [reflexivity|].
  intros Hin. destruct (String.eqb k' k) eqn:E.
  - apply String.eqb_eq in E. subst. tauto.
  - f_equal. apply IH. tauto.
Qed.

Lemma obj_set_in (k k0 : string) (v v0 : jsnum) (o : obj) :
  In (k, v) (obj_set k0 v0 o) -> (k, v) = (k0, v0) \/ In (k, v) o.
Proof.
  induction o as [|[k' v'] o IH]; simpl.
  - intros [H | []]. left. symmetry. exact H.
  - destruct (String.eqb k' k0); simpl.
    + intros [H | H]; [left; symmetry; exact H | right; right; exact H].
    + intros [H | H]; [right; left; exact H|].
      destruct (IH H) as [H' | H']; [left; exact H' | right; right; exact H'].
Qed.

(** X1.  [handleFeeChange] stores, under the given type, [0] for [NaN] or a
    negative input, the input itself when it lies within [[0, cap]], and the
    cap when the input is above it. *)
Theorem handleFeeChange_clamp (ty : string) (v : jsnum) (f : Fee)
    (st : ModalState) :
  wfFee f = true ->
  exists e,
    obj_get ty (feeEdits (handleFeeChange ty v f st)) = Some e
    /\ (isNaN v = true \/ nlt v zero = true -> e = zero)
    /\ (nle zero v = true -> nle v (perFeeCap f) = true -> e =n= v)
    /\ (ngt v (perFeeCap f) = true -> e =n= perFeeCap f).
Proof.
  intros Hwf.
  destruct (wfFee_cap f Hwf) as (o & d & m & Ho & Hd & Hm & Ho0 & _ & _ & Hm0 & Hmo).
  assert (Hc : exists c, perFeeCap f = Num c /\ 0 <= c).
  { unfold perFeeCap. rewrite Ho, Hm.
    pose proof (or0_Num o) as Hoo. pose proof (or0_Num m) as Hom.
    destruct (or0 (Num o)) as [o'|]; [|contradiction].
    destruct (or0 (Num m)) as [m'|]; [|contradiction].
    numsimpl. eexists. split; [reflexivity|]. apply Q.min_glb; lra. }
  destruct Hc as (c & Hc & Hc0).
  simpl. rewrite obj_get_set_eq. eexists. split; [reflexivity|].
  rewrite Hc. destruct v as [vq|]; simpl.
  - destruct (Qltb vq 0) eqn:E; simpl; qbool.
    + split; [reflexivity|]. split.
      * intros H1 _. qbool. lra.
      * unfold ngt. numsimpl. intros H. qbool. lra.
    + split; [intros [H | H]; [discriminate | qbool; lra]|]. split.
      * intros _ H. qbool. apply Q.min_l. exact H.
      * unfold ngt. numsimpl. intros H. qbool. apply Q.min_r. lra.
  - split; [reflexivity|]. split; [discriminate|]. unfold ngt. simpl. discriminate.
Qed.

Lemma handleFeeChange_clamp_witness :
  exists e,
    obj_get "Tax"
      (feeEdits (handleFeeChange "Tax" (Num 9) (mkFee "Tax" (Num 5.75) (Num 5.75) (Num 5.75))
                   (mountModal itm_1))) = Some e
    /\ e =n= Num 5.75.
Proof.
  destruct (handleFeeChange_clamp "Tax" (Num 9)
              (mkFee "Tax" (Num 5.75) (Num 5.75) (Num 5.75))
              (mountModal itm_1) eq_refl) as (e & He & _ & _ & H3).
  exists e. split; [exact He | apply H3; reflexivity].
Defined.

(** X2.  [handleFeeChange] touches one entry only: the amounts kept under
    the other types, the base amount, [submitting] and [error] are
    unchanged, and when the type is already present the entries keep their
    number and order. *)
Theorem handleFeeChange_frame (ty : string) (v : jsnum) (f : Fee)
    (st : ModalState) :
  (forall k, k <> ty ->
     obj_get k (feeEdits (handleFeeChange ty v f st)) = obj_get k (feeEdits st))
  /\ refundAmount (handleFeeChange ty v f st) = refundAmount st
  /\ submitting (handleFeeChange ty v f st) = submitting st
  /\ error (handleFeeChange ty v f st) = error st
  /\ (In ty (map fst (feeEdits st)) ->
      map fst (feeEdits (handleFeeChange ty v f st)) = map fst (feeEdits st)).
Proof.
  repeat split.
  - intros k Hk. simpl. apply obj_get_set_ne. congruence.
  - simpl. apply obj_set_keys_in.
Qed.

Lemma handleFeeChange_frame_witness :
  map fst (feeEdits (handleFeeChange "Tax" (Num 1) (mkFee "Tax" (Num 5.75) (Num 5.75) (Num 5.75))
                       (mountModal itm_1)))
  = ["Processing fee"; "Convenience fee"; "Tax"].
Proof.
  refine (eq_trans
            (proj2 (proj2 (proj2 (proj2
               (handleFeeChange_frame "Tax" (Num 1)
                  (mkFee "Tax" (Num 5.75) (Num 5.75) (Num 5.75))
                  (mountModal itm_1))))) _) _).
  - simpl. tauto.
  - reflexivity.
Defined.

(** ** Fee amounts along a dialog's life *)

Lemma wfItem_fees (it : OrderItem) (f : Fee) :
  wfItem it = true -> In f (fees it) -> wfFee f = true.
Proof.
  unfold wfItem. rewrite !andb_true_iff. intros [_ Hf] Hin.
  rewrite List.forallb_forall in Hf. apply Hf. exact Hin.
Qed.

Lemma feeDefaults_in (fs : list Fee) (o : obj) (k : string) (v : jsnum) :
  In (k, v) (fold_left (fun d f => obj_set (type f) (feeDefault f) d) fs o) ->
  In (k, v) o \/ exists f, In f fs /\ type f = k /\ feeDefault f = v.
Proof.
  revert o. induction fs as [|f fs IH]; intros o; simpl; [tauto|].
  intros H. destruct (IH _ H) as [H' | (g & Hg & Hk & Hv)].
  - destruct (obj_set_in _ _ _ _ _ H') as [[= -> ->] | H'']; [|tauto].
    right. exists f. auto.
  - right. exists g. auto.
Qed.

Lemma withinCaps_defaults (it : OrderItem) :
  defaultsWithinCaps it = true -> withinCaps it (feeDefaults (fees it)).
Proof.
  unfold defaultsWithinCaps. rewrite List.forallb_forall.
  intros H k v Hin.
  destruct (feeDefaults_in _ _ _ _ Hin) as [[] | (f & Hf & Hk & Hv)].
  specialize (H f Hf). apply andb_true_iff in H as [H1 H2].
  exists f. rewrite <- Hv. auto.
Qed.

Lemma rerender_feeEdits (it : OrderItem) (t : jsnum) (st : ModalState) :
  feeEdits (rerender it t st) = feeEdits st.
Proof. unfold rerender. destruct (num_eqb _ _); reflexivity. Qed.

Lemma withinCaps_edit (it : OrderItem) (f : Fee) (v : jsnum) (st : ModalState) :
  wfItem it = true -> In f (fees it) ->
  withinCaps it (feeEdits st) ->
  withinCaps it (feeEdits (handleFeeChange (type f) v f st)).
Proof.
  intros Hwf Hf Hcaps k w Hin. simpl in Hin.
  destruct (obj_set_in _ _ _ _ _ Hin) as [[= -> ->] | Hin']; [|auto].
  exists f. split; [exact Hf|]. split; [reflexivity|].
  pose proof (wfItem_fees it f Hwf Hf) as Hwff.
  destruct (wfFee_cap f Hwff) as (o & d & m & Ho & Hd & Hm & Ho0 & _ & _ & Hm0 & Hmo).
  unfold perFeeCap. rewrite Ho, Hm.
  pose proof (or0_Num o) as Hoo. pose proof (or0_Num m) as Hom.
  destruct (or0 (Num o)) as [o'|]; [|contradiction].
  destruct (or0 (Num m)) as [m'|]; [|contradiction].
  numsimpl.
  assert (Hc : 0 <= Qmin m' o') by (apply Q.min_glb; lra).
  destruct v as [vq|]; simpl.
  - destruct (Qltb vq 0) eqn:E; simpl; qbool.
    + split; qbool; lra.
    + split; qbool; [apply Q.min_glb; lra | apply Q.le_min_r].
  - split; qbool; lra.
Qed.

Lemma capsInv_mount (it : OrderItem) :
  defaultsWithinCaps it = true -> capsInv it (mount it).
Proof.
  intros H. split.
  - simpl. destruct (mountModal_fields it) as (_ & -> & _).
    apply withinCaps_defaults. exact H.
  - intros pl [].
Qed.

Lemma capsInv_step (it : OrderItem) (d : Dialog) (e : event) :
  wfItem it = true -> eventOf it e ->
  capsInv it d -> capsInv it (step it d e).
Proof.
  intros Hwf He Hinv. pose proof Hinv as [Hcur Hiss].
  destruct e as [v | f v | | ok | ]; simpl.
  - destruct (mounted d); [|exact Hinv].
    split; simpl; [rewrite rerender_feeEdits; exact Hcur | exact Hiss].
  - destruct (mounted d); [|exact Hinv].
    split; simpl; [|exact Hiss].
    rewrite rerender_feeEdits. apply withinCaps_edit; assumption.
  - destruct (mounted d); [|exact Hinv].
    unfold handleConfirm.
    destruct (negb (String.eqb (error (modal d)) "") || submitting (modal d));
      [exact Hinv|].
    split; simpl; [exact Hcur|].
    intros pl Hin. apply in_app_or in Hin as [Hin | [<- | []]]; [auto|].
    exists (modal d). auto.
  - unfold resolveConfirm. destruct (inflight d); [exact Hinv|].
    split; simpl; [|exact Hiss].
    destruct (mounted d); exact Hcur.
  - split; simpl; assumption.
Qed.

Lemma capsInv_run (it : OrderItem) (es : list event) :
  wfItem it = true -> defaultsWithinCaps it = true ->
  Forall (eventOf it) es -> capsInv it (run it es).
Proof.
  intros Hwf Hdef. unfold run.
  induction es as [|e es IH] using rev_ind; intros Hes; simpl.
  - apply capsInv_mount. exact Hdef.
  - apply Forall_app in Hes as [Hes He].
    rewrite fold_left_app. simpl. apply capsInv_step; [exact Hwf| |auto].
    inversion He; assumption.
Qed.

(** X3.  For an item of the data model none of whose fees starts above its
    cap, and whatever is typed into the rows of its fees, no row is ever
    marked invalid and every fee refund of every payload handed to the
    service lies within [[0, cap]] of a fee of its type. *)
Theorem dialog_fee_caps (it : OrderItem) (es : list event) :
  wfItem it = true -> defaultsWithinCaps it = true ->
  Forall (eventOf it) es ->
  (forall f, In f (fees it) -> List.NoDup (map type (fees it)) ->
     rowInvalid f (modal (run it es)) = false)
  /\ (forall pl p b,
        In pl (issued (run it es)) -> In p (items pl) ->
        In b (default [] (p_feeRefunds p)) ->
        exists f, In f (fees it) /\ type f = fr_type b
                  /\ nle zero (fr_amount b) = true
                  /\ nle (fr_amount b) (perFeeCap f) = true).
Proof.
  intros Hwf Hdef Hes.
  destruct (capsInv_run it es Hwf Hdef Hes) as [Hcur Hiss]. split.
  - intros f Hf Hnd. unfold rowInvalid, rowValue.
    destruct (obj_get (type f) (feeEdits (modal (run it es)))) as [v|] eqn:E;
      simpl.
    + assert (Hin : In (type f, v) (feeEdits (modal (run it es)))).
      { clear -E. induction (feeEdits (modal (run it es))) as [|[k w] o IH];
          simpl in *; [discriminate|].
        destruct (String.eqb k (type f)) eqn:Ek.
        - apply String.eqb_eq in Ek. injection E as ->. left. congruence.
        - right. auto. }
      destruct (Hcur _ _ Hin) as (g & Hg & Hty & _ & Hle).
      assert (g = f) as ->.
      { clear -Hf Hg Hty Hnd. induction (fees it) as [|h fs IH]; [destruct Hf|].
        simpl in Hnd. inversion Hnd as [|? ? Hh Hrest]; subst.
        destruct Hf as [-> | Hf], Hg as [-> | Hg]; auto.
        - exfalso. apply Hh. rewrite <- Hty. apply in_map. exact Hg.
        - exfalso. apply Hh. rewrite Hty. apply in_map. exact Hf. }
      unfold ngt. destruct v as [vq|], (perFeeCap f) as [c|]; simpl in *;
        try discriminate; try reflexivity. qbool. lra.
    + pose proof (wfItem_fees it f Hwf Hf) as Hwff.
      destruct (wfFee_cap f Hwff) as (o & d & m & Ho & Hd & Hm & Ho0 & _ & _ & Hm0 & Hmo).
      unfold perFeeCap. rewrite Ho, Hm.
      pose proof (or0_Num o) as Hoo. pose proof (or0_Num m) as Hom.
      destruct (or0 (Num o)) as [o'|]; [|contradiction].
      destruct (or0 (Num m)) as [m'|]; [|contradiction].
      unfold ngt, zero. numsimpl. qbool. apply Q.min_glb; lra.
  - intros pl p b Hpl Hp Hb.
    destruct (Hiss pl Hpl) as (st & -> & Hst).
    simpl in Hp. destruct Hp as [<- | []]. simpl in Hb.
    apply in_map_iff in Hb as ([k v] & <- & Hkv).
    destruct (Hst _ _ Hkv) as (f & Hf & Hty & H0 & Hle).
    exists f. split; [exact Hf|]. split; [exact Hty|].
    cbn [fr_amount snd].
    destruct v as [vq|]; [|discriminate].
    pose proof (or0_Num vq) as Hor.
    split.
    + rewrite <- H0. apply nle_proper; [reflexivity | exact Hor].
    + rewrite <- Hle. apply nle_proper; [exact Hor | reflexivity].
Qed.

Lemma dialog_fee_caps_witness :
  rowInvalid (mkFee "Tax" (Num 5.75) (Num 5.75) (Num 5.75))
    (modal (run itm_1
              [ChangeFee (mkFee "Tax" (Num 5.75) (Num 5.75) (Num 5.75)) (Num 9);
               Confirm]))
  = false.
Proof.
  apply (proj1 (dialog_fee_caps itm_1
           [ChangeFee (mkFee "Tax" (Num 5.75) (Num 5.75) (Num 5.75)) (Num 9);
            Confirm]
           eq_refl eq_refl
           ltac:(repeat constructor; simpl; tauto))).
  - simpl. tauto.
  - repeat constructor; simpl; intuition discriminate.
Defined.

(** ** The error line and the confirm action *)

Lemma rerender_total (it : OrderItem) (t : jsnum) (st : ModalState) :
  total (rerender it t st) = total st.
Proof. unfold rerender. destruct (num_eqb _ _); reflexivity. Qed.

Lemma rerender_error (it : OrderItem) (t : jsnum) (st : ModalState) :
  (total st =n= t /\ error (rerender it t st) = error st)
  \/ error (rerender it t st)
     = validate (total st) (maxRefundable (Some it)).
Proof.
  unfold rerender. destruct (num_eqb (total st) t) eqn:E.
  - left. apply num_eqb_eq in E. auto.
  - right. reflexivity.
Qed.

Lemma mount_error (it : OrderItem) :
  error (mountModal it)
  = validate (total (mountModal it)) (maxRefundable (Some it)).
Proof.
  unfold mountModal.
  set (st2 := validationEffect true _ _ _).
  rewrite rerender_total.
  destruct (rerender_error it (total initialModal) st2) as [[Ht He] | He];
    [|exact He].
  rewrite He. unfold st2. simpl error.
  apply validate_proper; [symmetry; exact Ht | reflexivity].
Qed.

(** One edit: the message afterwards is the verdict on the new total if the
    message before was the verdict on the old one; otherwise it is the new
    verdict or the old message, the latter only if the total did not
    change. *)
Lemma edit_error (it : OrderItem) (old st : ModalState) :
  error st = error old ->
  let st' := rerender it (total old) st in
  (error old = validate (total old) (maxRefundable (Some it)) ->
   error st' = validate (total st') (maxRefundable (Some it)))
  /\ (error st' = validate (total st') (maxRefundable (Some it))
      \/ (error st' = error old /\ total st' =n= total old)).
Proof.
  intros He st'. unfold st'. rewrite rerender_total.
  destruct (rerender_error it (total old) st) as [[Ht Hr] | Hr]; rewrite Hr.
  - split.
    + intros Hold. rewrite He, Hold.
      apply validate_proper; [symmetry; exact Ht | reflexivity].
    + right. auto.
  - split; [reflexivity | left; reflexivity].
Qed.

Lemma verdict_step (it : OrderItem) (d : Dialog) (e : event) :
  (verdictInv it d -> verdictInv it (step it d e))
  /\ (neverFails e ->
      error (modal d) = validate (total (modal d)) (maxRefundable (Some it)) ->
      error (modal (step it d e))
      = validate (total (modal (step it d e))) (maxRefundable (Some it))).
Proof.
  destruct e as [v | f v | | ok | ]; simpl.
  - destruct (mounted d); [|unfold verdictInv; tauto]. unfold verdictInv. simpl.
    destruct (edit_error it (modal d) (handleAmountChange v (modal d)) eq_refl)
      as [H1 H2].
    split; [|intros _; exact H1].
    intros [H | H]; [left; auto|].
    destruct H2 as [H2 | [H2 _]]; [left; exact H2 | right; congruence].
  - destruct (mounted d); [|unfold verdictInv; tauto]. unfold verdictInv. simpl.
    destruct (edit_error it (modal d) (handleFeeChange (type f) v f (modal d)) eq_refl)
      as [H1 H2].
    split; [|intros _; exact H1].
    intros [H | H]; [left; auto|].
    destruct H2 as [H2 | [H2 _]]; [left; exact H2 | right; congruence].
  - destruct (mounted d); [|unfold verdictInv; tauto].
    unfold handleConfirm, verdictInv.
    destruct (negb (String.eqb (error (modal d)) "") || submitting (modal d));
      simpl; tauto.
  - unfold resolveConfirm, verdictInv.
    destruct (inflight d); [tauto|]. simpl.
    destruct (mounted d), ok; simpl; tauto.
  - unfold verdictInv. simpl. tauto.
Qed.

Lemma verdict_run (it : OrderItem) (es : list event) :
  verdictInv it (run it es)
  /\ (Forall neverFails es ->
      error (modal (run it es))
      = validate (total (modal (run it es))) (maxRefundable (Some it))).
Proof.
  unfold run. induction es as [|e es [IH1 IH2]] using rev_ind; simpl.
  - split; [left|intros _]; apply mount_error.
  - rewrite fold_left_app. simpl.
    destruct (verdict_step it (fold_left (step it) es (mount it)) e) as [H1 H2].
    split; [auto|].
    intros Hes. apply Forall_app in Hes as [Hes He].
    apply H2; [inversion He; assumption | auto].
Qed.

(** X4.  In every state a dialog reaches, the error line shows the verdict
    of the validation on the current total or the failure message of the
    service; with a service that never fails, as the mock, it always shows
    the verdict. *)
Theorem error_is_verdict (it : OrderItem) (es : list event) :
  verdictInv it (run it es)
  /\ (Forall neverFails es ->
      error (modal (run it es))
      = validate (total (modal (run it es))) (maxRefundable (Some it))).
Proof. apply verdict_run. Qed.

Lemma error_is_verdict_witness :
  error (modal (run itm_1 [ChangeAmount (Num 500); Confirm; Resolve true]))
  = msgExceeds.
Proof.
  refine (eq_trans
            (proj2 (error_is_verdict itm_1
                      [ChangeAmount (Num 500); Confirm; Resolve true]) _) _).
  - repeat constructor.
  - reflexivity.
Defined.

Lemma once_step (it : OrderItem) (d : Dialog) (e : event) :
  dialogInv it d -> onceInv d -> onceInv (step it d e).
Proof.
  intros (Hlen & Hsub & _ & _) Hinv. pose proof Hinv as (Hfl & Hiss & Hconf).
  destruct e as [v | f v | | ok | ]; simpl.
  - destruct (mounted d) eqn:Hm; [|exact Hinv].
    unfold onceInv. simpl. rewrite Hm, rerender_submitting. simpl. auto.
  - destruct (mounted d) eqn:Hm; [|exact Hinv].
    unfold onceInv. simpl. rewrite Hm, rerender_submitting. simpl. auto.
  - destruct (mounted d) eqn:Hm; [|exact Hinv].
    unfold handleConfirm.
    destruct (String.eqb (error (modal d)) "") eqn:Ee; simpl; [|exact Hinv].
    destruct (submitting (modal d)) eqn:Es; simpl; [exact Hinv|].
    unfold onceInv. simpl. rewrite Hm. split; [|split].
    + intros _ _. destruct (inflight d); discriminate.
    + intros pl [Hin | Hin]; apply in_or_app.
      * apply in_app_or in Hin as [Hin | Hin]; [left; auto | right; exact Hin].
      * left. auto.
    + destruct Hconf as [Hc | (pl & _ & Hc & _)]; [left; exact Hc | congruence].
  - unfold resolveConfirm.
    destruct (inflight d) as [|pl rest] eqn:Ei; [exact Hinv|].
    assert (rest = []) as ->.
    { simpl in Hlen. destruct rest; [reflexivity | simpl in Hlen; lia]. }
    destruct Hconf as [Hc | (pl' & _ & _ & Hc)]; [|discriminate].
    unfold onceInv. simpl. rewrite Hc. split; [|split].
    + destruct ok; [discriminate|].
      destruct (mounted d); simpl; [discriminate | discriminate].
    + intros pl' [[] | Hin]. apply Hiss.
      destruct ok; simpl in Hin; [|destruct Hin].
      destruct Hin as [<- | []]. left. left. reflexivity.
    + destruct ok; [right; exists pl; auto | left; reflexivity].
  - unfold onceInv. simpl. split; [discriminate|]. split; [exact Hiss|].
    destruct Hconf as [Hc | (pl & Hc & _ & Hi)]; [left; exact Hc|].
    right. exists pl. auto.
Qed.

Lemma once_run (it : OrderItem) (es : list event) : onceInv (run it es).
Proof.
  induction es as [|e es IH] using rev_ind.
  - unfold run, onceInv. simpl. split; [|split].
    + intros _. destruct (mountModal_fields it) as (_ & _ & ->). discriminate.
    + intros pl [[] | []].
    + left. reflexivity.
  - unfold run. rewrite fold_left_app. simpl.
    apply once_step; [apply run_inv | exact IH].
Qed.

(** A closed dialog with nothing in flight does not react to anything. *)
Lemma closed_dead (it : OrderItem) (d : Dialog) (e : event) :
  mounted d = false -> inflight d = [] -> step it d e = d.
Proof.
  destruct d as [st m fl iss conf]. simpl. intros -> ->.
  destruct e; reflexivity.
Qed.

(** X5.  A dialog instance applies at most one refund: whatever the events,
    at most one payload is passed to [onConfirm], it is one that was handed
    to the service, and from then on the dialog is closed with nothing in
    flight. *)
Theorem dialog_confirms_once (it : OrderItem) (es : list event) :
  let d := run it es in
  (length (confirmed d) <= 1)%nat
  /\ (forall pl, In pl (confirmed d) -> In pl (issued d))
  /\ (confirmed d <> [] -> mounted d = false /\ inflight d = [])
  /\ (forall e, confirmed d <> [] -> step it d e = d).
Proof.
  intros d. destruct (once_run it es) as (Hfl & Hiss & Hconf). fold d in Hfl, Hiss, Hconf.
  split; [|split; [|split]].
  - destruct Hconf as [-> | (pl & -> & _)]; simpl; lia.
  - intros pl Hin. apply Hiss. right. exact Hin.
  - destruct Hconf as [-> | (pl & _ & Hm & Hi)]; [congruence | auto].
  - intros e Hne.
    destruct Hconf as [Hc | (pl & _ & Hm & Hi)]; [congruence|].
    apply closed_dead; assumption.
Qed.

Lemma dialog_confirms_once_witness :
  mounted (run itm_1 [Confirm; Close; Resolve true]) = false
  /\ inflight (run itm_1 [Confirm; Close; Resolve true]) = [].
Proof.
  apply (proj1 (proj2 (proj2
           (dialog_confirms_once itm_1 [Confirm; Close; Resolve true])))).
  discriminate.
Defined.

(** X6.  With a service that never fails, a mounted dialog with nothing in
    flight and a total that passes validation always submits on the confirm
    action: the payload of the current state goes to the service and the
    dialog is [submitting]. *)
Theorem confirm_submits (it : OrderItem) (es : list event) :
  let d := run it es in
  Forall neverFails es ->
  mounted d = true -> inflight d = [] ->
  validate (total (modal d)) (maxRefundable (Some it)) = "" ->
  issued (step it d Confirm) = issued d ++ [buildPayload it (modal d)]
  /\ inflight (step it d Confirm) = [buildPayload it (modal d)]
  /\ submitting (modal (step it d Confirm)) = true
  /\ confirmDisabled (modal d) = false.
Proof.
  intros d Hes Hm Hi Hv.
  destruct (once_run it es) as (Hfl & _ & _). fold d in Hfl.
  pose proof (proj2 (verdict_run it es) Hes) as He. fold d in He.
  rewrite Hv in He.
  assert (Hs : submitting (modal d) = false).
  { destruct (submitting (modal d)); [|reflexivity].
    exfalso. apply (Hfl Hm eq_refl). exact Hi. }
  simpl. rewrite Hm. unfold handleConfirm, confirmDisabled.
  rewrite He, Hs, Hi. simpl.
  repeat split. apply validate_ok in Hv as [Hv _]. exact Hv.
Qed.

Lemma confirm_submits_witness :
  issued (step itm_2 (run itm_2 [ChangeAmount (Num 20)]) Confirm)
  = issued (run itm_2 [ChangeAmount (Num 20)])
    ++ [buildPayload itm_2 (modal (run itm_2 [ChangeAmount (Num 20)]))].
Proof.
  apply (confirm_submits itm_2 [ChangeAmount (Num 20)]);
    [repeat constructor | reflexivity | reflexivity | reflexivity].
Defined.

(** X7.  After the service reports a failure the dialog stays open with the
    failure message and the confirm action does nothing; this lasts through
    every event that leaves the total as it was, so a retry needs an edit
    that changes the total. *)
Theorem failure_blocks_retry (it : OrderItem) (es : list event) :
  let d := run it es in
  mounted d = true -> inflight d <> [] ->
  let d' := step it d (Resolve false) in
  mounted d' = true /\ inflight d' = []
  /\ submitting (modal d') = false /\ error (modal d') = msgFailed
  /\ step it d' Confirm = d'
  /\ (forall e, total (modal (step it d' e)) =n= total (modal d') ->
      error (modal (step it d' e)) = msgFailed
      /\ step it (step it d' e) Confirm = step it d' e).
Proof.
  intros d Hm Hi d'.
  destruct (run_inv it es) as (Hlen & _). fold d in Hlen.
  destruct (inflight d) as [|pl rest] eqn:Ei; [congruence|].
  assert (rest = []) as ->.
  { destruct rest; [reflexivity | simpl in Hlen; lia]. }
  assert (Hd' : d' = {| modal := {| refundAmount := refundAmount (modal d);
                                    feeEdits := feeEdits (modal d);
                                    submitting := false;
                                    error := msgFailed |};
                        mounted := true; inflight := [];
                        issued := issued d; confirmed := confirmed d |}).
  { unfold d'. simpl. unfold resolveConfirm. rewrite Ei, Hm. reflexivity. }
  assert (Hno : forall x, mounted x = true -> error (modal x) = msgFailed ->
                          step it x Confirm = x).
  { intros x Hx He. simpl. rewrite Hx. unfold handleConfirm. rewrite He.
    reflexivity. }
  rewrite Hd'. clear Hd' d'.
  set (st' := {| refundAmount := refundAmount (modal d);
                 feeEdits := feeEdits (modal d);
                 submitting := false; error := msgFailed |}).
  set (D := {| modal := st'; mounted := true; inflight := [];
               issued := issued d; confirmed := confirmed d |}).
  split; [reflexivity|]. split; [reflexivity|]. split; [reflexivity|].
  split; [reflexivity|]. split; [apply Hno; reflexivity|].
  intros e Ht.
  assert (He : error (modal (step it D e)) = msgFailed).
  { destruct e as [v | f v | | ok | ]; try reflexivity.
    - simpl in *. rewrite rerender_total in Ht.
      apply num_eqb_eq in Ht. unfold rerender. rewrite Ht. reflexivity.
    - simpl in *. rewrite rerender_total in Ht.
      apply num_eqb_eq in Ht. unfold rerender. rewrite Ht. reflexivity. }
  split; [exact He|].
  destruct (mounted (step it D e)) eqn:Hx; [apply Hno; assumption|].
  simpl. rewrite Hx. reflexivity.
Qed.

Lemma failure_blocks_retry_witness :
  step itm_1 (run itm_1 [Confirm; Resolve false]) Confirm
  = run itm_1 [Confirm; Resolve false].
Proof.
  apply (failure_blocks_retry itm_1 [Confirm]); [reflexivity | discriminate].
Defined.

(** ** More on applying refunds *)

Lemma applyOne_findIndex (k : string) (upd : list OrderItem) (p : PayloadItem) :
  findIndex k (applyOne upd p) = findIndex k upd.
Proof. apply findIndex_ids, applyOne_ids. Qed.

Lemma applyOne_commute (upd : list OrderItem) (p q : PayloadItem) :
  p_id p <> p_id q ->
  applyOne (applyOne upd p) q = applyOne (applyOne upd q) p.
Proof.
  intros Hne.
  destruct (findIndex (p_id p) upd) as [i|] eqn:Hp;
    destruct (findIndex (p_id q) upd) as [j|] eqn:Hq.
  - destruct (findIndex_Some _ _ _ Hp) as (itp & Hlp & Hidp).
    destruct (findIndex_Some _ _ _ Hq) as (itq & Hlq & Hidq).
    assert (Hij : i <> j) by (intros ->; congruence).
    rewrite (applyOne_matched upd p i itp Hp Hlp).
    rewrite (applyOne_matched upd q j itq Hq Hlq).
    rewrite (applyOne_matched _ q j itq).
    + rewrite (applyOne_matched _ p i itp).
      * symmetry. apply list_insert_insert_ne. auto.
      * rewrite <- (applyOne_matched upd q j itq Hq Hlq), applyOne_findIndex.
        exact Hp.
      * rewrite list_lookup_insert_ne; [exact Hlp | auto].
    + rewrite <- (applyOne_matched upd p i itp Hp Hlp), applyOne_findIndex.
      exact Hq.
    + rewrite list_lookup_insert_ne; [exact Hlq | auto].
  - assert (Hq' : applyOne (applyOne upd p) q = applyOne upd p).
    { unfold applyOne at 1. rewrite applyOne_findIndex, Hq. reflexivity. }
    rewrite Hq'. unfold applyOne at 3. rewrite Hq. reflexivity.
  - assert (Hp' : applyOne (applyOne upd q) p = applyOne upd q).
    { unfold applyOne at 1. rewrite applyOne_findIndex, Hp. reflexivity. }
    rewrite Hp'. unfold applyOne at 2. rewrite Hp. reflexivity.
  - unfold applyOne at 2 4. rewrite Hp, Hq.
    unfold applyOne. rewrite Hp, Hq. reflexivity.
Qed.

(** X8.  Requests for different items can be applied in either order: a
    batch and the batch with two such neighbours swapped give the same
    items. *)
Theorem applyRefund_order (pg : Page) (l1 l2 : list PayloadItem)
    (p q : PayloadItem) (r n : string) :
  p_id p <> p_id q ->
  pageItems (applyRefund pg (mkPayload (l1 ++ p :: q :: l2) r n))
  = pageItems (applyRefund pg (mkPayload (l1 ++ q :: p :: l2) r n)).
Proof.
  intros Hne. simpl. rewrite !fold_left_app. simpl.
  rewrite (applyOne_commute _ p q Hne). reflexivity.
Qed.

Lemma applyRefund_order_witness :
  pageItems (applyRefund (pageOf fetchOrderItemsMock)
               (mkPayload [mkPayloadItem "itm_1" (Num 10) None;
                           mkPayloadItem "itm_3" (Num 20) None] "" ""))
  = pageItems (applyRefund (pageOf fetchOrderItemsMock)
                 (mkPayload [mkPayloadItem "itm_3" (Num 20) None;
                             mkPayloadItem "itm_1" (Num 10) None] "" "")).
Proof.
  apply (applyRefund_order (pageOf fetchOrderItemsMock) [] []
           (mkPayloadItem "itm_1" (Num 10) None)
           (mkPayloadItem "itm_3" (Num 20) None) "" "").
  simpl. discriminate.
Defined.

Lemma refundedFrom_refl (it : OrderItem) :
  wfItem it = true -> refundedFrom it it.
Proof.
  unfold wfItem, nonneg, zero. rewrite !andb_true_iff.
  intros [[[_ Ha] Hr] _].
  destruct (amount it) as [a|] eqn:Ea; [|discriminate].
  destruct (refundedAmount it) as [r|] eqn:Er; [|discriminate].
  unfold refundedFrom. rewrite Ea, Er. numsimpl.
  repeat split; qbool; lra.
Qed.

Lemma refundedFrom_trans (x y z : OrderItem) :
  refundedFrom x y -> refundedFrom y z -> refundedFrom x z.
Proof.
  unfold refundedFrom.
  intros (H1 & H2 & H3 & H4 & H5) (G1 & G2 & G3 & G4 & G5).
  repeat split; try congruence.
  - destruct (amount x), (amount y), (amount z); simpl in *;
      try discriminate. qbool. lra.
  - destruct (refundedAmount x), (refundedAmount y), (refundedAmount z);
      simpl in *; try discriminate. qbool. lra.
Qed.

(** One refund of a non-negative total on an item of the data model. *)
Lemma refundItem_model (it : OrderItem) (t : jsnum) :
  wfItem it = true -> nle zero t = true ->
  wfItem (refundItem it t) = true /\ refundedFrom it (refundItem it t).
Proof.
  unfold wfItem, nonneg, zero. rewrite !andb_true_iff.
  intros [[[Ho Ha] Hr] Hf] Ht.
  destruct t as [tq|]; [|discriminate].
  destruct (amount it) as [a|] eqn:Ea; [|discriminate].
  destruct (refundedAmount it) as [r|] eqn:Er; [|discriminate].
  unfold refundedFrom. simpl. rewrite Ea, Er.
  pose proof (or0_Num a) as Hoa. pose proof (or0_Num r) as Hor.
  destruct (or0 (Num a)) as [a'|]; [|contradiction].
  destruct (or0 (Num r)) as [r'|]; [|contradiction].
  numsimpl. qbool.
  pose proof (Q.le_max_r (a' - tq) 0).
  assert (Qmax (a' - tq) 0 <= a).
  { apply Q.max_lub; lra. }
  unfold zero. numsimpl.
  repeat split; auto; qbool; lra.
Qed.

Lemma applyOne_model (upd : list OrderItem) (p : PayloadItem) :
  Forall (fun it => wfItem it = true) upd ->
  nle zero (totalRefund p) = true ->
  Forall (fun it => wfItem it = true) (applyOne upd p)
  /\ Forall2 refundedFrom upd (applyOne upd p).
Proof.
  intros Hwf Ht.
  assert (Hrefl : Forall2 refundedFrom upd upd).
  { apply Forall_Forall2_diag. eapply Forall_impl; [exact Hwf|].
    intros it. apply refundedFrom_refl. }
  unfold applyOne. destruct (findIndex (p_id p) upd) as [i|]; [|auto].
  destruct (upd !! i) as [it|] eqn:E; [|auto].
  pose proof (Forall_lookup_1 _ _ _ _ Hwf E) as Hit.
  destruct (refundItem_model it _ Hit Ht) as [H1 H2].
  split; [apply Forall_insert; assumption|].
  rewrite <- (list_insert_id upd i it E) at 1.
  apply Forall2_insert; assumption.
Qed.

Lemma fold_applyOne_model (l : list PayloadItem) (upd : list OrderItem) :
  Forall (fun it => wfItem it = true) upd ->
  Forall (fun p => nle zero (totalRefund p) = true) l ->
  Forall (fun it => wfItem it = true) (fold_left applyOne l upd)
  /\ Forall2 refundedFrom upd (fold_left applyOne l upd).
Proof.
  revert upd. induction l as [|p l IH]; intros upd Hwf Hl; simpl.
  - split; [exact Hwf|]. apply Forall_Forall2_diag.
    eapply Forall_impl; [exact Hwf|]. intros it. apply refundedFrom_refl.
  - inversion Hl as [|? ? Hp Hrest]; subst.
    destruct (applyOne_model upd p Hwf Hp) as [H1 H2].
    destruct (IH _ H1 Hrest) as [H3 H4].
    split; [exact H3|].
    apply Forall2_same_length_lookup. split.
    + rewrite <- (Forall2_length _ _ _ H4). apply (Forall2_length _ _ _ H2).
    + intros i x z Hx Hz.
      destruct (Forall2_lookup_l _ _ _ _ _ H2 Hx) as (y & Hy & Hxy).
      pose proof (Forall2_lookup_lr _ _ _ _ _ _ H4 Hy Hz) as Hyz.
      eapply refundedFrom_trans; eassumption.
Qed.

(** X9.  Refunds of non-negative totals keep the items within the data
    model: every item of the result is well-formed and is the item found at
    the same position before, with the same identifier, original amount and
    fees, an amount that did not grow and a refunded amount that did not
    shrink. *)
Theorem applyRefund_keeps_model (pg : Page) (payload : Payload) :
  Forall (fun it => wfItem it = true) (pageItems pg) ->
  Forall (fun p => nle zero (totalRefund p) = true) (items payload) ->
  Forall (fun it => wfItem it = true) (pageItems (applyRefund pg payload))
  /\ Forall2 refundedFrom (pageItems pg) (pageItems (applyRefund pg payload)).
Proof. intros Hwf Hl. simpl. apply fold_applyOne_model; assumption. Qed.

Lemma applyRefund_keeps_model_witness :
  Forall (fun it => wfItem it = true)
    (pageItems (applyRefund (pageOf fetchOrderItemsMock)
                  (buildPayload itm_2 (mountModal itm_2)))).
Proof.
  apply (applyRefund_keeps_model (pageOf fetchOrderItemsMock)
           (buildPayload itm_2 (mountModal itm_2))).
  - repeat constructor.
  - repeat constructor.
Defined.

Lemma maxRefundable_ge_caps (it : OrderItem) :
  wfItem it = true ->
  exists m c, maxRefundable (Some it) = Num m /\ feeCaps it = Num c
              /\ 0 <= c /\ c <= m.
Proof.
  intros Hwf. pose proof Hwf as Hwf'.
  unfold wfItem, nonneg, zero in Hwf'. rewrite !andb_true_iff in Hwf'.
  destruct Hwf' as [[[_ Ha] Hr] Hfees].
  destruct (amount it) as [a|] eqn:Ea; [|discriminate].
  destruct (refundedAmount it) as [r|] eqn:Er; [|discriminate].
  destruct (feeCap_nonneg (fees it) 0 Hfees ltac:(lra)) as (c & Hc & Hc0).
  unfold maxRefundable, feeCaps. rewrite Ea, Er. unfold zero. rewrite Hc.
  numsimpl. do 2 eexists. split; [reflexivity|]. split; [reflexivity|].
  split; [exact Hc0|]. pose proof (Q.le_max_r (a - r) 0). lra.
Qed.

Lemma refundTimes_fees (n : nat) (it : OrderItem) (t : jsnum) :
  fees (refundTimes n it t) = fees it.
Proof. induction n as [|n IH]; simpl; auto. Qed.

(** X10.  [maxRefundable] counts the fee caps whatever has been refunded
    already: on an item of the data model, a total that is positive and at
    most the sum of the fee caps passes validation again after any number
    [n] of applications of that same total, each of which adds it to a
    [refundedAmount] that is never below the one the item started with. *)
Theorem fee_caps_never_used_up (it : OrderItem) (t : jsnum) (n : nat) :
  wfItem it = true ->
  ngt t zero = true -> nle t (feeCaps it) = true ->
  wfItem (refundTimes n it t) = true
  /\ validate t (maxRefundable (Some (refundTimes n it t))) = ""
  /\ (refundedAmount (refundTimes (S n) it t)
      =n= refundedAmount (refundTimes n it t) + t)%jsnum
  /\ nle (refundedAmount it) (refundedAmount (refundTimes n it t)) = true.
Proof.
  intros Hwf Hpos Hcap.
  assert (Ht0 : nle zero t = true).
  { unfold ngt, zero in *. destruct t as [tq|]; [|discriminate].
    numsimpl. qbool. lra. }
  assert (Hfin : forall x, wfItem x = true -> finite (refundedAmount x) = true).
  { intros x Hx. unfold wfItem, nonneg, zero in Hx.
    rewrite !andb_true_iff in Hx. destruct Hx as [[[_ _] Hr] _].
    destruct (refundedAmount x); [reflexivity | discriminate]. }
  assert (Hall : wfItem (refundTimes n it t) = true
                 /\ refundedFrom it (refundTimes n it t)).
  { induction n as [|n [IH1 IH2]].
    - split; [exact Hwf | apply refundedFrom_refl; exact Hwf].
    - destruct (refundItem_model _ t IH1 Ht0) as [H1 H2].
      split; [exact H1|]. cbn [refundTimes].
      eapply refundedFrom_trans; eassumption. }
  destruct Hall as [H1 H2]. split; [exact H1|]. split; [|split].
  - destruct (maxRefundable_ge_caps _ H1) as (m & c & Hm & Hc & Hc0 & Hcm).
    unfold feeCaps in Hc. rewrite refundTimes_fees in Hc.
    unfold feeCaps in Hcap. rewrite Hc in Hcap.
    apply validate_ok. rewrite Hm. unfold ngt, zero in *.
    destruct t as [tq|]; [|discriminate]. numsimpl. split; qbool; lra.
  - cbn [refundTimes refundItem refundedAmount].
    rewrite (or0_finite _ (Hfin _ H1)). reflexivity.
  - apply H2.
Qed.

Lemma fee_caps_never_used_up_witness :
  validate (Num 5.75) (maxRefundable (Some (refundTimes 3 itm_1 (Num 5.75)))) = ""
  /\ nle (refundedAmount itm_1) (refundedAmount (refundTimes 3 itm_1 (Num 5.75)))
     = true.
Proof.
  destruct (fee_caps_never_used_up itm_1 (Num 5.75) 3 eq_refl eq_refl eq_refl)
    as (_ & H2 & _ & H4).
  exact (conj H2 H4).
Defined.

(** ** The summary figures of the page *)

(** The sum of the page grows with each of its terms. *)
Lemma fold_add_mono {A : Type} (g : A -> jsnum) (l l' : list A)
    (acc acc' : jsnum) :
  Forall2 (fun x y => nle (g x) (g y) = true) l l' ->
  nle acc acc' = true ->
  nle (fold_left (fun a x => (a + g x)%jsnum) l acc)
      (fold_left (fun a x => (a + g x)%jsnum) l' acc') = true.
Proof.
  intros H. revert acc acc'.
  induction H as [|x y l l' Hxy _ IH]; intros acc acc' Hacc; simpl;
    [exact Hacc|].
  apply IH. destruct acc, acc', (g x), (g y); try discriminate.
  numsimpl. qbool. lra.
Qed.

(** The sum of the page is the same when each of its terms is. *)
Lemma fold_add_same {A : Type} (g : A -> jsnum) (l l' : list A) (acc : jsnum) :
  Forall2 (fun x y => g x = g y) l l' ->
  fold_left (fun a x => (a + g x)%jsnum) l acc
  = fold_left (fun a x => (a + g x)%jsnum) l' acc.
Proof.
  intros H. revert acc.
  induction H as [|x y l l' Hxy _ IH]; intros acc; simpl; [reflexivity|].
  rewrite Hxy. apply IH.
Qed.

Lemma or0_mono x y : nle x y = true -> nle (or0 x) (or0 y) = true.
Proof.
  destruct x as [a|], y as [b|]; try discriminate.
  intros H. pose proof (or0_Num a) as Ha. pose proof (or0_Num b) as Hb.
  destruct (or0 (Num a)) as [a'|]; [|contradiction].
  destruct (or0 (Num b)) as [b'|]; [|contradiction].
  numsimpl. qbool. lra.
Qed.

(** X11.  Refunds of non-negative totals on items of the data model move
    the figures of the summary one way only: the subtotal does not grow and
    the "Refunded" figure does not shrink; when every original amount is a
    non-zero number the "Amount" figure is the same as before, and the
    "Total" line, [totalOriginal - totalRefunded], does not grow. *)
Theorem summary_monotone (pg : Page) (payload : Payload) :
  Forall (fun it => wfItem it = true) (pageItems pg) ->
  Forall (fun p => nle zero (totalRefund p) = true) (items payload) ->
  let its := pageItems pg in
  let its' := pageItems (applyRefund pg payload) in
  nle (subtotal its') (subtotal its) = true
  /\ nle (totalRefunded its) (totalRefunded its') = true
  /\ (Forall (fun it => truthy (originalAmount it) = true) its ->
      totalOriginal its' = totalOriginal its
      /\ nle (orderTotal its') (orderTotal its) = true).
Proof.
  intros Hwf Hl its its'.
  assert (H : Forall2 refundedFrom its its').
  { unfold its, its'. simpl. apply fold_applyOne_model; assumption. }
  assert (HR : nle (totalRefunded its) (totalRefunded its') = true).
  { unfold totalRefunded.
    apply (fold_add_mono (fun it => or0 (refundedAmount it)));
      [|reflexivity].
    eapply Forall2_impl; [exact H|].
    intros x y (_ & _ & _ & _ & Hr). apply or0_mono. exact Hr. }
  split; [|split; [exact HR|]].
  - unfold subtotal. apply (fold_add_mono amount); [|reflexivity].
    apply Forall2_flip. eapply Forall2_impl; [exact H|].
    intros x y (_ & _ & _ & Ha & _). exact Ha.
  - intros Htr.
    assert (HO : totalOriginal its' = totalOriginal its).
    { unfold totalOriginal.
      apply (fold_add_same
               (fun it => or0 (jsor (originalAmount it) (amount it)))).
      apply Forall2_flip.
      apply Forall2_same_length_lookup. split;
        [apply (Forall2_length _ _ _ H)|].
      intros i x y Hx Hy.
      destruct (Forall2_lookup_lr _ _ _ _ _ _ H Hx Hy) as (_ & Ho & _).
      pose proof (Forall_lookup_1 _ _ _ _ Htr Hx) as Hxt. cbn beta in Hxt.
      unfold jsor. rewrite Ho, Hxt. reflexivity. }
    split; [exact HO|]. unfold orderTotal. rewrite HO.
    destruct (totalOriginal its) as [o|] eqn:Eo.
    + destruct (totalRefunded its) as [r|], (totalRefunded its') as [r'|];
        try discriminate.
      numsimpl. qbool. lra.
    + exfalso. unfold totalOriginal in Eo.
      assert (Hfin : forall (l : list OrderItem) acc, finite acc = true ->
                finite (fold_left
                          (fun a it => (a + or0 (jsor (originalAmount it)
                                                      (amount it)))%jsnum)
                          l acc) = true).
      { induction l as [|x l IHl]; intros acc Hacc; simpl; [exact Hacc|].
        apply IHl. destruct acc as [a|]; [|discriminate].
        destruct (finite_Num _ (or0_is_finite
                                  (jsor (originalAmount x) (amount x))))
          as [w ->].
        reflexivity. }
      specialize (Hfin its zero eq_refl). rewrite Eo in Hfin. discriminate.
Qed.

Lemma summary_monotone_witness :
  nle (totalRefunded fetchOrderItemsMock)
      (totalRefunded
         (pageItems (applyRefund (pageOf fetchOrderItemsMock)
                       (buildPayload itm_2 (mountModal itm_2))))) = true.
Proof.
  refine (proj1 (proj2 (summary_monotone (pageOf fetchOrderItemsMock)
                          (buildPayload itm_2 (mountModal itm_2)) _ _))).
  - repeat constructor.
  - repeat constructor.
Defined.

(** ** The toast *)

Lemma or0_proper x y : x =n= y -> or0 x =n= or0 y.
Proof.
  destruct x as [a|], y as [b|]; simpl; try tauto;
    [|intros _; reflexivity].
  intros H. rewrite (or0_Num a), (or0_Num b). exact H.
Qed.

(** Both formats depend on the value of the number only. *)
Lemma format_proper x y :
  x =n= y -> intlFormat x = intlFormat y /\ toFixed2 x = toFixed2 y.
Proof.
  destruct x as [a|], y as [b|]; cbn [num_eq]; try tauto.
  intros H. unfold intlFormat, toFixed2.
  rewrite (sign_proper _ _ H), (cents_proper _ _ H).
  split; [reflexivity|].
  assert (Hc : Qle_bool (10 ^ 21) (Qabs a) = Qle_bool (10 ^ 21) (Qabs b)).
  { rewrite H. reflexivity. }
  assert (Hs : toStringLarge (Qabs a) = toStringLarge (Qabs b)).
  { unfold toStringLarge.
    rewrite (Qred_complete (Qabs a) (Qabs b)); [reflexivity|].
    rewrite H. reflexivity. }
  rewrite Hc, Hs. reflexivity.
Qed.

Lemma currency_proper (intl : bool) x y :
  x =n= y -> currency intl (Number x) = currency intl (Number y).
Proof.
  intros H. unfold currency. cbn [numberOr0].
  destruct (format_proper _ _ (or0_proper _ _ H)) as [-> ->]. reflexivity.
Qed.


(** ** Selection and bulk refund *)

Lemma sel_get_set_eq (k : string) (b : bool) (s : selection) :
  sel_get k (sel_set k b s) = Some b.
Proof.
  induction s as [|[k' b'] s IH]; simpl.
  - rewrite String.eqb_refl. reflexivity.
  - destruct (String.eqb k' k) eqn:E; simpl.
    + rewrite String.eqb_refl. reflexivity.
    + rewrite E. exact IH.
Qed.

Lemma sel_get_set_ne (k k' : string) (b : bool) (s : selection) :
  k <> k' -> sel_get k' (sel_set k b s) = sel_get k' s.
Proof.
  intros Hne. induction s as [|[k0 b0] s IH]; simpl.
  - apply String.eqb_neq in Hne. rewrite Hne. reflexivity.
  - destruct (String.eqb k0 k) eqn:E; simpl.
    + apply String.eqb_eq in E. subst k0.
      apply String.eqb_neq in Hne. rewrite Hne. reflexivity.
    + destruct (String.eqb k0 k'); [reflexivity | exact IH].
Qed.

(** X14.  After [onSelect(id, checked)] the row of [id] is selected exactly
    when [checked], every other row is as before, and the count of selected
    rows has moved by the change of that one row. *)
Theorem onSelect_spec (i : string) (checked : bool) (s : selection) :
  isSelected i (onSelect i checked s) = checked
  /\ (forall j, j <> i -> isSelected j (onSelect i checked s) = isSelected j s)
  /\ (selectedCount (onSelect i checked s) + (if isSelected i s then 1 else 0)
      = selectedCount s + (if checked then 1 else 0))%nat.
Proof.
  unfold isSelected, onSelect. split; [|split].
  - rewrite sel_get_set_eq. reflexivity.
  - intros j Hj. rewrite sel_get_set_ne; [reflexivity | congruence].
  - unfold selectedCount.
    induction s as [|[k b] s IH]; simpl.
    + destruct checked; reflexivity.
    + destruct (String.eqb k i) eqn:E; simpl.
      * destruct checked, b; simpl; lia.
      * destruct b; simpl; lia.
Qed.

(** X15.  The selection bar is visible exactly when the count of selected
    rows is positive, which is exactly when [bulkRefund] finds a first
    selected identifier; that identifier is then selected.  After
    [clearSelection] the count is [0] and the bar is hidden. *)
Theorem selection_bar_spec (s : selection) :
  (bulkBarVisible s = true <-> (0 < selectedCount s)%nat)
  /\ (bulkBarVisible s = true <-> exists k, firstSelected s = Some k)
  /\ (forall k, firstSelected s = Some k -> In (k, true) s)
  /\ selectedCount (clearSelection s) = 0%nat
  /\ bulkBarVisible (clearSelection s) = false.
Proof.
  unfold bulkBarVisible, selectedCount, firstSelected.
  split; [|split; [|split; [|split; reflexivity]]].
  - induction s as [|[k b] s IH]; simpl.
    + split; [discriminate | lia].
    + destruct b; simpl; [split; [lia | reflexivity] | exact IH].
  - induction s as [|[k b] s IH]; simpl.
    + split; [discriminate | intros [k [=]]].
    + destruct b; simpl; [split; eauto | exact IH].
  - intros k Hk.
    destruct (List.find snd s) as [[k' b]|] eqn:E; [|discriminate].
    simpl in Hk. injection Hk as ->.
    apply List.find_some in E as [Hin Hb]. simpl in Hb. subst b. exact Hin.
Qed.

(** X16.  [bulkRefund] looks at the first selected identifier only: with
    nothing selected, or when no item carries that identifier, the page is
    left as it is; otherwise the dialog opens on the first item with that
    identifier and the items are untouched. *)
Theorem bulkRefund_spec (s : selection) (pg : Page) :
  (firstSelected s = None -> bulkRefund s pg = pg)
  /\ (forall k, firstSelected s = Some k ->
      Forall (fun it => id it <> k) (pageItems pg) -> bulkRefund s pg = pg)
  /\ (forall k i it, firstSelected s = Some k ->
      findIndex k (pageItems pg) = Some i -> pageItems pg !! i = Some it ->
      bulkRefund s pg = openRefundModal it pg
      /\ id it = k /\ modalOpen (bulkRefund s pg) = true
      /\ pageItems (bulkRefund s pg) = pageItems pg).
Proof.
  unfold bulkRefund. split; [|split].
  - intros ->. reflexivity.
  - intros k -> Hall. simpl.
    apply findIndex_None in Hall. unfold findIndex in Hall.
    apply fmap_None in Hall. rewrite Hall. reflexivity.
  - intros k i it -> Hf Hl. simpl. unfold findIndex in Hf.
    destruct (list_find (fun x => id x = k) (pageItems pg)) as [[j x]|] eqn:E;
      [|discriminate].
    simpl in Hf. injection Hf as ->.
    apply list_find_Some in E as (Hx & Hid & _).
    assert (x = it) by congruence. subst x. simpl. auto.
Qed.

Lemma bulkRefund_spec_witness :
  bulkRefund (onSelect "itm_2" true (onSelect "itm_1" false []))
    (pageOf fetchOrderItemsMock)
  = openRefundModal itm_2 (pageOf fetchOrderItemsMock).
Proof.
  apply (proj2 (proj2 (bulkRefund_spec
                         (onSelect "itm_2" true (onSelect "itm_1" false []))
                         (pageOf fetchOrderItemsMock)))
           "itm_2" 1%nat itm_2); reflexivity.
Defined.

Lemma onSelect_spec_witness :
  isSelected "itm_1" (onSelect "itm_2" true (onSelect "itm_1" true []))
  = isSelected "itm_1" (onSelect "itm_1" true []).
Proof.
  apply (proj1 (proj2 (onSelect_spec "itm_2" true (onSelect "itm_1" true [])))).
  discriminate.
Defined.

Lemma selection_bar_spec_witness :
  (0 < selectedCount (onSelect "itm_3" true []))%nat.
Proof.
  apply (proj1 (proj1 (selection_bar_spec (onSelect "itm_3" true [])))).
  reflexivity.
Defined.

(** ** The shape of the dialog's state and payloads *)

Lemma feeDefaults_fold_shape (fs : list Fee) (o : obj) :
  List.NoDup (map fst o ++ map type fs) ->
  fold_left (fun d f => obj_set (type f) (feeDefault f) d) fs o
  = o ++ map (fun f => (type f, feeDefault f)) fs.
Proof.
  revert o. induction fs as [|f fs IH]; intros o Hnd; simpl.
  - symmetry. apply app_nil_r.
  - simpl in Hnd.
    assert (Hnew : ~ In (type f) (map fst o)).
    { apply List.NoDup_remove_2 in Hnd. intros Hin. apply Hnd.
      apply in_or_app. left. exact Hin. }
    rewrite (obj_set_keys_new _ _ _ Hnew). rewrite IH.
    + rewrite <- app_assoc. reflexivity.
    + rewrite map_app. simpl. rewrite <- app_assoc. exact Hnd.
Qed.

(** With fee types unique within the item, the dialog opens with one entry
    per fee, in the order of the fees. *)
Lemma feeDefaults_shape (fs : list Fee) :
  List.NoDup (map type fs) ->
  feeDefaults fs = map (fun f => (type f, feeDefault f)) fs.
Proof. intros H. unfold feeDefaults. apply (feeDefaults_fold_shape fs []). exact H. Qed.

Lemma shape_step (it : OrderItem) (d : Dialog) (e : event) :
  eventOf it e -> shapeInv it d -> shapeInv it (step it d e).
Proof.
  intros He Hinv. pose proof Hinv as [Hcur Hiss].
  destruct e as [v | f v | | ok | ]; simpl.
  - destruct (mounted d); [|exact Hinv].
    split; simpl; [rewrite rerender_feeEdits; exact Hcur | exact Hiss].
  - destruct (mounted d); [|exact Hinv].
    split; simpl; [|exact Hiss].
    rewrite rerender_feeEdits. simpl. rewrite obj_set_keys_in; [exact Hcur|].
    rewrite Hcur. apply in_map. exact He.
  - destruct (mounted d); [|exact Hinv].
    unfold handleConfirm.
    destruct (negb (String.eqb (error (modal d)) "") || submitting (modal d));
      [exact Hinv|].
    split; simpl; [exact Hcur|].
    intros pl Hin. apply in_app_or in Hin as [Hin | [<- | []]]; [auto|].
    exists (modal d). auto.
  - unfold resolveConfirm. destruct (inflight d); [exact Hinv|].
    split; simpl; [|exact Hiss].
    destruct (mounted d); exact Hcur.
  - split; simpl; assumption.
Qed.

Lemma shape_run (it : OrderItem) (es : list event) :
  List.NoDup (map type (fees it)) -> Forall (eventOf it) es ->
  shapeInv it (run it es).
Proof.
  intros Hnd. unfold run.
  induction es as [|e es IH] using rev_ind; intros Hes; simpl.
  - split; [|intros pl []]. simpl.
    destruct (mountModal_fields it) as (_ & -> & _).
    rewrite (feeDefaults_shape _ Hnd), map_map. reflexivity.
  - apply Forall_app in Hes as [Hes He].
    rewrite fold_left_app. simpl. apply shape_step; [|auto].
    inversion He; assumption.
Qed.

(** X18.  With fee types that are unique within the item and that an
    object keeps in insertion order (none is the notation of an integer or
    ["__proto__"]), every payload handed to the service carries a single
    request, for the dialog's item, with one fee refund per fee of the item,
    in the order of the fees. *)
Theorem payload_shape (it : OrderItem) (es : list event) :
  List.NoDup (map type (fees it)) ->
  forallb plainKey (map type (fees it)) = true ->
  Forall (eventOf it) es ->
  forall pl, In pl (issued (run it es)) ->
    exists p frs,
      items pl = [p] /\ p_id p = id it /\ p_feeRefunds p = Some frs
      /\ map fr_type frs = map type (fees it).
Proof.
  intros Hnd _ Hes pl Hin.
  destruct (shape_run it es Hnd Hes) as [_ Hiss].
  destruct (Hiss pl Hin) as (st & -> & Hk).
  do 2 eexists. split; [reflexivity|]. split; [reflexivity|].
  split; [reflexivity|]. rewrite map_map. simpl. exact Hk.
Qed.

Lemma payload_shape_witness :
  exists p frs,
    items (buildPayload itm_3 (mountModal itm_3)) = [p]
    /\ p_id p = "itm_3" /\ p_feeRefunds p = Some frs
    /\ map fr_type frs = ["Processing fee"; "Convenience fee"; "Tax"].
Proof.
  apply (payload_shape itm_3 [Confirm]).
  - repeat constructor; simpl; intuition discriminate.
  - reflexivity.
  - repeat constructor.
  - left. reflexivity.
Defined.

(** ** The state in which the dialog opens *)

Lemma defaults_le_caps (fs : list Fee) (x y : Q) :
  forallb wfFee fs = true ->
  forallb (fun f => nle zero (feeDefault f) && nle (feeDefault f) (perFeeCap f))
          fs = true ->
  x <= y ->
  exists x' y',
    fold_left (fun a b => (a + or0 b)%jsnum) (map feeDefault fs) (Num x) = Num x'
    /\ fold_left (fun acc f => (acc + or0 (maxRefund f))%jsnum) fs (Num y) = Num y'
    /\ x' <= y' /\ x <= x'.
Proof.
  revert x y. induction fs as [|f fs IH]; intros x y Hwf Hdef Hxy; simpl.
  - exists x, y. repeat split; auto. lra.
  - simpl in Hwf, Hdef.
    apply andb_true_iff in Hwf as [Hf Hfs].
    apply andb_true_iff in Hdef as [Hd Hds].
    apply andb_true_iff in Hd as [Hd0 Hdc].
    destruct (wfFee_cap f Hf) as (o & d & m & Ho & _ & Hm & Ho0 & _ & _ & Hm0 & Hmo).
    unfold perFeeCap in Hdc. rewrite Ho, Hm in Hdc. rewrite Hm.
    pose proof (or0_Num o) as Hoo. pose proof (or0_Num m) as Hom.
    destruct (or0 (Num o)) as [o'|]; [|contradiction].
    destruct (or0 (Num m)) as [m'|]; [|contradiction].
    destruct (feeDefault f) as [dq|]; [|discriminate].
    pose proof (or0_Num dq) as Hod.
    destruct (or0 (Num dq)) as [d'|]; [|contradiction].
    unfold zero in Hd0. numsimpl. qbool.
    pose proof (Q.le_min_l m' o') as Hmin.
    destruct (IH (x + d') (y + m') Hfs Hds ltac:(lra)) as (x' & y' & H1 & H2 & H3 & H4).
    exists x', y'. repeat split; auto. lra.
Qed.



(** ** The base amount of a payload *)

Lemma rerender_refundAmount (it : OrderItem) (t : jsnum) (st : ModalState) :
  refundAmount (rerender it t st) = refundAmount st.
Proof. unfold rerender. destruct (num_eqb _ _); reflexivity. Qed.

Lemma or0_max_nonneg (v : jsnum) : nle zero (or0 (nmax zero v)) = true.
Proof.
  destruct v as [q|]; [|reflexivity]. unfold zero. numsimpl.
  pose proof (or0_Num (Qmax 0 q)) as H.
  destruct (or0 (Num (Qmax 0 q))) as [w|]; [|contradiction].
  numsimpl. qbool. pose proof (Q.le_max_l 0 q). lra.
Qed.

Lemma base_step (it : OrderItem) (d : Dialog) (e : event) :
  baseInv it d -> baseInv it (step it d e).
Proof.
  intros Hinv. pose proof Hinv as [Hcur Hiss].
  destruct e as [v | f v | | ok | ]; simpl.
  - destruct (mounted d); [|exact Hinv].
    split; simpl; [|exact Hiss].
    rewrite rerender_refundAmount. simpl. apply or0_max_nonneg.
  - destruct (mounted d); [|exact Hinv].
    split; simpl; [|exact Hiss].
    rewrite rerender_refundAmount. exact Hcur.
  - destruct (mounted d); [|exact Hinv].
    unfold handleConfirm.
    destruct (negb (String.eqb (error (modal d)) "") || submitting (modal d));
      [exact Hinv|].
    split; simpl; [exact Hcur|].
    intros pl Hin. apply in_app_or in Hin as [Hin | [<- | []]]; [auto|].
    exists (modal d). auto.
  - unfold resolveConfirm. destruct (inflight d); [exact Hinv|].
    split; simpl; [|exact Hiss].
    destruct (mounted d); exact Hcur.
  - split; simpl; assumption.
Qed.

(** X20.  When the item's refunded amount does not exceed its amount, the
    base amount of every payload handed to the service is non-negative: the
    dialog opens with [amount - refundedAmount] and the amount input keeps
    [Math.max(0, value)]. *)
Theorem payload_base_nonneg (it : OrderItem) (es : list event) :
  nle (refundedAmount it) (amount it) = true ->
  forall pl p, In pl (issued (run it es)) -> In p (items pl) ->
    nle zero (p_amount p) = true.
Proof.
  intros Hra.
  assert (Hrun : baseInv it (run it es)).
  { unfold run. induction es as [|e es IH] using rev_ind; simpl.
    - split; [|intros pl []]. simpl.
      destruct (mountModal_fields it) as (-> & _ & _).
      destruct (refundedAmount it) as [r|], (amount it) as [a|];
        try discriminate.
      pose proof (or0_Num (a - r)) as H. numsimpl.
      destruct (or0 (Num (a - r))) as [w|]; [|contradiction].
      unfold zero. numsimpl. qbool. lra.
    - rewrite fold_left_app. simpl. apply base_step. exact IH. }
  intros pl p Hpl Hp. destruct Hrun as [_ Hiss].
  destruct (Hiss pl Hpl) as (st & -> & Hst).
  simpl in Hp. destruct Hp as [<- | []]. exact Hst.
Qed.

Lemma payload_base_nonneg_witness :
  nle zero (or0 (refundAmount (modal (run itm_1 [ChangeAmount (Num (-3))]))))
  = true.
Proof.
  apply (payload_base_nonneg itm_1 [ChangeAmount (Num (-3)); ChangeFee (mkFee "Tax" (Num 5.75) (Num 5.75) (Num 5.75)) (Num 1); Confirm]
           eq_refl
           (buildPayload itm_1
              (modal (run itm_1 [ChangeAmount (Num (-3)); ChangeFee (mkFee "Tax" (Num 5.75) (Num 5.75) (Num 5.75)) (Num 1)])))
           {| p_id := "itm_1";
              p_amount := or0 (refundAmount (modal (run itm_1 [ChangeAmount (Num (-3))])));
              p_feeRefunds :=
                Some (map (fun e => {| fr_type := fst e; fr_amount := or0 (snd e) |})
                        (feeEdits (modal (run itm_1 [ChangeAmount (Num (-3)); ChangeFee (mkFee "Tax" (Num 5.75) (Num 5.75) (Num 5.75)) (Num 1)])))) |}).
  - left. reflexivity.
  - left. reflexivity.
Defined.

(** ** From the confirm action to the page *)

(** X21.  [applyRefund] is a callback closed over the items of one render
    of the page, and a dialog calls the one of the render in which its
    confirm button was clicked.  Called with a refund that the dialog of
    [it] passes to [onConfirm], it hands to [setItems] the items it was
    closed over with [it], found under its identifier, replaced by the item
    refunded by a total that is positive and does not exceed
    [maxRefundable(it)]; the refunded amount of that item is the old one
    plus the total, and every other position is as in the captured items.
    The list is computed from the captured items and not from the page's
    items at the time of the call: called with a refund confirmed by the
    dialog of an item with another identifier, the callback closed over the
    same items hands over a list that still has the unrefunded [it] at its
    position. *)
Theorem confirmed_refund_effect (pg : Page) (i : nat) (it : OrderItem)
    (es : list event) (pl : Payload) :
  findIndex (id it) (pageItems pg) = Some i ->
  pageItems pg !! i = Some it ->
  finite (refundedAmount it) = true ->
  In pl (confirmed (run it es)) ->
  (exists t,
     pageItems (applyRefund pg pl) = <[i := refundItem it t]> (pageItems pg)
     /\ ngt t zero = true
     /\ ngt t (maxRefundable (Some it)) = false
     /\ (refundedAmount (refundItem it t) =n= refundedAmount it + t)%jsnum
     /\ (forall j, j <> i ->
         pageItems (applyRefund pg pl) !! j = pageItems pg !! j))
  /\ (forall (it2 : OrderItem) (es2 : list event) (pl2 : Payload),
        id it2 <> id it ->
        In pl2 (confirmed (run it2 es2)) ->
        pageItems (applyRefund pg pl2) !! i = Some it).
Proof.
  intros Hf Hl Hr Hin.
  assert (Hbuilt : forall (x : OrderItem) (xs : list event) (q : Payload),
            In q (confirmed (run x xs)) ->
            exists st, q = buildPayload x st
                       /\ validate (total st) (maxRefundable (Some x)) = "").
  { intros x xs q Hq.
    destruct (once_run x xs) as (_ & Hsub & _).
    pose proof (Hsub q (or_intror Hq)) as Hiss.
    destruct (run_inv x xs) as (_ & _ & _ & Hval).
    exact (Hval q Hiss). }
  split.
  - destruct (Hbuilt it es pl Hin) as (st & -> & Hv).
    destruct (buildPayload_total it st) as (p & Hp & Hid & Ht).
    exists (totalRefund p).
    assert (Happ : pageItems (applyRefund pg (buildPayload it st))
                   = <[i := refundItem it (totalRefund p)]> (pageItems pg)).
    { unfold applyRefund. cbn [pageItems closeRefundModal]. rewrite Hp.
      cbn [fold_left]. apply applyOne_matched; [rewrite Hid; exact Hf | exact Hl]. }
    rewrite (validate_proper _ _ (num_eq_sym _ _ Ht) _ _ (num_eq_refl _)) in Hv.
    apply validate_ok in Hv as [Hv1 Hv2].
    split; [exact Happ|]. split.
    + destruct (totalRefund_finite p) as [tq Htq]. rewrite Htq in *.
      unfold ngt, zero in *. numsimpl. qbool. lra.
    + split; [exact Hv2|]. split.
      * simpl. rewrite (or0_finite _ Hr). reflexivity.
      * intros j Hj. rewrite Happ. apply list_lookup_insert_ne. auto.
  - intros it2 es2 pl2 Hne Hin2.
    destruct (Hbuilt it2 es2 pl2 Hin2) as (st & -> & _).
    destruct (buildPayload_total it2 st) as (p & Hp & Hid & _).
    unfold applyRefund. cbn [pageItems closeRefundModal]. rewrite Hp.
    cbn [fold_left]. apply applyOne_other; [exact Hl|].
    rewrite Hid. auto.
Qed.

Lemma confirmed_refund_effect_witness :
  (exists t,
     pageItems (applyRefund (pageOf fetchOrderItemsMock)
                  (buildPayload itm_2 (mountModal itm_2)))
     = <[1%nat := refundItem itm_2 t]> fetchOrderItemsMock
     /\ ngt t zero = true)
  /\ pageItems (applyRefund (pageOf fetchOrderItemsMock)
                  (buildPayload itm_3 (mountModal itm_3))) !! 1%nat
     = Some itm_2.
Proof.
  destruct (confirmed_refund_effect (pageOf fetchOrderItemsMock) 1%nat itm_2
              [Confirm; Resolve true] (buildPayload itm_2 (mountModal itm_2))
              eq_refl eq_refl eq_refl (or_introl eq_refl))
    as ((t & H1 & H2 & _) & H3).
  split.
  - exists t. split; assumption.
  - apply (H3 itm_3 [Confirm; Resolve true]).
    + discriminate.
    + left. reflexivity.
Defined.
